(** * DragonResist-EUV: the EUV exposure model, embedded and verified

    Shallow embedding of [src/models/euv_exposure.py] (class
    [EUVExposureModel]) together with the properties claimed for it.

    Number model.  A numpy/Python [float64] is idealised as a real number
    ([R]): rounding, overflow and underflow are not modelled.  The values a
    numpy operation produces outside the reals (the [nan] of an empty mean,
    of the square root of a negative number and of [0/0], and the signed
    infinities of [x/0]) are kept, in the type [np_float], at the places
    where the source can produce them.  Where the idealisation changes what
    a statement says (a strict bound that rounding turns into an equality),
    the development stage of one cell is also given on binary64 floats, in
    the module [Float64].

    Library code.  [scipy.ndimage.gaussian_filter] is an arbitrary function
    on grids; [random.gauss mu sigma] returns [mu + z * sigma] for the next
    standard normal variate [z] of an arbitrary stream, the position in the
    stream being the state of the generator. *)

From Stdlib Require Import Reals Lra Lia ZArith String List Bool Arith.
From Stdlib Require PrimFloat.
Import ListNotations.

Local Open Scope R_scope.

(** ** Python outcomes *)

Inductive py_exception : Set :=
| ZeroDivisionError.

Inductive py_result (A : Type) : Type :=
| Returned (a : A)
| Raised (e : py_exception).

Arguments Returned {A} a.
Arguments Raised {A} e.

Definition py_bind {A B : Type} (r : py_result A) (k : A -> py_result B)
  : py_result B :=
  match r with
  | Returned a => k a
  | Raised e => Raised e
  end.

Definition py_map {A B : Type} (f : A -> B) (r : py_result A) : py_result B :=
  match r with
  | Returned a => Returned (f a)
  | Raised e => Raised e
  end.

Notation "x <- r ;; k" := (py_bind r (fun x => k))
  (at level 61, r at next level, right associativity).
Notation "' p <- r ;; k" := (py_bind r (fun p => k))
  (at level 61, p pattern, r at next level, right associativity).

(** [for i in range(n): s = body i s] *)
Definition for_range {S : Type} (n : nat) (body : nat -> S -> S) (s : S) : S :=
  fold_left (fun acc i => body i acc) (seq 0 n) s.

(** [for i in range(lo, hi)] with [hi - lo] already truncated at zero. *)
Definition for_range_from {S : Type} (lo len : nat) (body : nat -> S -> S)
  (s : S) : S :=
  fold_left (fun acc i => body i acc) (seq lo len) s.

(** [enumerate(l)] *)
Definition enumerate {A : Type} (l : list A) : list (nat * A) :=
  combine (seq 0 (length l)) l.

(** A loop over a list whose body may raise. *)
Fixpoint for_each_M {A S : Type} (l : list A) (body : A -> S -> py_result S)
  (s : S) : py_result S :=
  match l with
  | [] => Returned s
  | a :: l' => s' <- body a s ;; for_each_M l' body s'
  end.

(** [int(x)] on a float: truncation toward zero. *)
Definition py_int (x : R) : Z :=
  if Rle_dec 0 x then Zfloor x else Zceil x.

(** Bound of a slice [a[start:stop]] on a sequence of length [len]. *)
Definition py_slice_index (len i : Z) : Z :=
  if (i <? 0)%Z then Z.max 0 (i + len) else Z.min i len.

(** ** numpy scalars *)

Inductive np_float : Type :=
| Num (r : R)
| PosInf
| NegInf
| NaN.

Definition np_sqrt (x : R) : np_float :=
  if Rlt_dec x 0 then NaN else Num (sqrt x).

(** [a / b] on numpy scalars, [b] finite: no exception, [0/0] is [nan]. *)
Definition np_true_divide (a : np_float) (b : R) : np_float :=
  match a with
  | Num x =>
      if Req_dec_T b 0 then
        if Req_dec_T x 0 then NaN
        else if Rlt_dec 0 x then PosInf else NegInf
      else Num (x / b)
  | PosInf => if Rlt_dec b 0 then NegInf else PosInf
  | NegInf => if Rlt_dec b 0 then PosInf else NegInf
  | NaN => NaN
  end.

Definition np_mul (a : np_float) (b : R) : np_float :=
  match a with
  | Num x => Num (x * b)
  | PosInf => if Req_dec_T b 0 then NaN
              else if Rlt_dec b 0 then NegInf else PosInf
  | NegInf => if Req_dec_T b 0 then NaN
              else if Rlt_dec b 0 then PosInf else NegInf
  | NaN => NaN
  end.

Definition np_sub (a : np_float) (b : R) : np_float :=
  match a with
  | Num x => Num (x - b)
  | other => other
  end.

Definition np_abs (a : np_float) : np_float :=
  match a with
  | Num x => Num (Rabs x)
  | PosInf | NegInf => PosInf
  | NaN => NaN
  end.

(** [a < b]: every comparison with [nan] is false. *)
Definition np_ltb (a : np_float) (b : R) : bool :=
  match a with
  | Num x => if Rlt_dec x b then true else false
  | NegInf => true
  | PosInf | NaN => false
  end.

Definition Rsum (l : list R) : R := fold_right Rplus 0 l.

(** [np.mean] of a one-dimensional array: [nan] on the empty array. *)
Definition np_mean (l : list R) : np_float :=
  np_true_divide (Num (Rsum l)) (INR (length l)).

(** [np.std] of a non-empty one-dimensional array. *)
Definition np_std (l : list R) : R :=
  let n := INR (length l) in
  let mu := Rsum l / n in
  sqrt (Rsum (map (fun x => (x - mu) * (x - mu)) l) / n).

(** [np.diff] of a one-dimensional array. *)
Fixpoint np_diff {A : Type} (sub : A -> A -> A) (l : list A) : list A :=
  match l with
  | a :: (b :: _) as tl => sub b a :: np_diff sub tl
  | _ => []
  end.

(** [np.linspace(a, b, n)] *)
Definition np_linspace (a b : R) (n : nat) : list R :=
  match n with
  | O => []
  | S O => [a]
  | S (S k) =>
      map (fun i => a + INR i * ((b - a) / INR (S k))) (seq 0 (S k)) ++ [b]
  end.

(** ** Grids: two-dimensional numpy arrays *)

Definition grid : Type := list (list R).

Definition height (g : grid) : nat := length g.
Definition width (g : grid) : nat := length (hd [] g).
Definition grid_size (g : grid) : nat := (height g * width g)%nat.

Definition rectangular {A : Type} (w : nat) (g : list (list A)) : Prop :=
  Forall (fun row => length row = w) g.

Definition grid_get (g : grid) (y x : nat) : R := nth x (nth y g []) 0.

Definition grid_map (f : R -> R) (g : grid) : grid := map (map f) g.

Fixpoint update_nth {A : Type} (n : nat) (f : A -> A) (l : list A) : list A :=
  match l, n with
  | [], _ => []
  | a :: l', O => f a :: l'
  | a :: l', S n' => a :: update_nth n' f l'
  end.

(** [g[y, x] = v] and [g[y, x] += v] for in-range indices. *)
Definition matrix_set {A : Type} (g : list (list A)) (y x : nat) (v : A)
  : list (list A) :=
  update_nth y (update_nth x (fun _ => v)) g.

Definition grid_add_at (g : grid) (y x : nat) (v : R) : grid :=
  update_nth y (update_nth x (fun c => c + v)) g.

Definition np_zeros (h w : nat) : grid := repeat (repeat 0 w) h.
Definition np_zeros_like (g : grid) : grid := grid_map (fun _ => 0) g.
Definition np_ones_like (g : grid) : grid := grid_map (fun _ => 1) g.

(** Broadcasting a scalar over a grid. *)
Definition grid_mul_scalar (g : grid) (s : R) : grid :=
  grid_map (fun v => v * s) g.
Definition grid_sub_scalar (g : grid) (s : R) : grid :=
  grid_map (fun v => v - s) g.
Definition scalar_mul_grid (s : R) (g : grid) : grid :=
  grid_map (fun v => s * v) g.
Definition scalar_add_grid (s : R) (g : grid) : grid :=
  grid_map (fun v => s + v) g.
Definition scalar_div_grid (s : R) (g : grid) : grid :=
  grid_map (fun v => s / v) g.
Definition np_exp (g : grid) : grid := grid_map exp g.

Fixpoint zip_with {A B C : Type} (f : A -> B -> C) (l1 : list A) (l2 : list B)
  : list C :=
  match l1, l2 with
  | a :: l1', b :: l2' => f a b :: zip_with f l1' l2'
  | _, _ => []
  end.

(** Element-wise difference of two grids of the same shape. *)
Definition grid_sub (a b : grid) : grid := zip_with (zip_with Rminus) a b.

(** [np.where(g > 0, x, y)] *)
Definition np_where_positive (g : grid) (x y : R) : grid :=
  grid_map (fun v => if Rlt_dec 0 v then x else y) g.

Definition np_sum (g : grid) : R := Rsum (map Rsum g).

(** [g[y0:y1, x0:x1]] for in-range bounds. *)
Definition grid_slice (g : grid) (y0 y1 x0 x1 : nat) : grid :=
  map (fun row => firstn (x1 - x0) (skipn x0 row)) (firstn (y1 - y0) (skipn y0 g)).

(** [g[:, start:stop] = v] *)
Definition assign_columns (g : grid) (start stop : Z) (v : R) : grid :=
  let w := Z.of_nat (width g) in
  let lo := py_slice_index w start in
  let hi := py_slice_index w stop in
  map (fun row =>
         map (fun '(x, c) =>
                if ((lo <=? Z.of_nat x) && (Z.of_nat x <? hi))%Z then v else c)
             (enumerate row)) g.

(** [np.diff(g, axis=1)] *)
Definition np_diff_axis1 (g : grid) : grid := map (np_diff Rminus) g.

(** Column indices of [np.where(g == 1)], in row-major order. *)
Definition columns_equal_one (g : grid) : list Z :=
  flat_map (fun row =>
              flat_map (fun '(x, v) =>
                          if Req_dec_T v 1 then [Z.of_nat x] else [])
                       (enumerate row)) g.

(** ** Configuration *)

Record tool_parameters : Type := {
  wavelength_nm : R;
  numerical_aperture : R;
  illumination_sigma : R;
  dose_mJ_cm2 : R;
  exposure_time_s : R;
  source_power_W : R;
  photons_per_nm2 : R
}.

Record resist_parameters : Type := {
  resist_type : string;
  absorption_coefficient : R;
  secondary_electron_yield : R;
  electron_scattering_range_nm : R;
  chemical_amplification_factor : R;
  acid_diffusion_length_nm : R;
  quenching_factor : R;
  reaction_rate_constant : R;
  stochastic_factor : R;
  development_rate_base_nm_s : R;
  development_contrast : R
}.

Record simulation_metrics : Type := {
  effective_dose_mJ_cm2 : R;
  ler_nm : R;
  lwr_nm : R;
  cd_error_nm : np_float;
  stochastic_defects_per_um2 : R;
  process_window_size : R;
  pattern_fidelity : option R
}.

Record EUVExposureModel : Type := {
  tool : tool_parameters;
  resist : resist_parameters;
  metrics : simulation_metrics
}.

Definition default_tool : tool_parameters := {|
  wavelength_nm := 13.5;
  numerical_aperture := 0.33;
  illumination_sigma := 0.55;
  dose_mJ_cm2 := 30.0;
  exposure_time_s := 0.1;
  source_power_W := 1000.0;
  photons_per_nm2 := 2.45e15
|}.

Definition default_resist : resist_parameters := {|
  resist_type := "CAR"%string;
  absorption_coefficient := 0.78;
  secondary_electron_yield := 3.2;
  electron_scattering_range_nm := 4.8;
  chemical_amplification_factor := 500;
  acid_diffusion_length_nm := 5.2;
  quenching_factor := 0.15;
  reaction_rate_constant := 0.85;
  stochastic_factor := 1.25;
  development_rate_base_nm_s := 0.5;
  development_contrast := 4.5
|}.

Definition initial_metrics : simulation_metrics := {|
  effective_dose_mJ_cm2 := 0.0;
  ler_nm := 0.0;
  lwr_nm := 0.0;
  cd_error_nm := Num 0.0;
  stochastic_defects_per_um2 := 0.0;
  process_window_size := 0.0;
  pattern_fidelity := None
|}.

(** The physics constants set by [__init__]. *)
Definition eV_per_photon : R := 92.0.
Definition electron_mean_free_path_nm : R := 2.3.
Definition avogadro : R := 6.022e23.
Definition nm_per_pixel : R := 0.5.

(** [EUVExposureModel(tool_parameters, resist_parameters)] *)
Definition init (tool_parameters0 : option tool_parameters)
  (resist_parameters0 : option resist_parameters) : EUVExposureModel := {|
  tool := match tool_parameters0 with Some t => t | None => default_tool end;
  resist := match resist_parameters0 with Some r => r | None => default_resist end;
  metrics := initial_metrics
|}.

Definition set_dose (m : EUVExposureModel) (dose : R) : EUVExposureModel := {|
  tool := {|
    wavelength_nm := wavelength_nm (tool m);
    numerical_aperture := numerical_aperture (tool m);
    illumination_sigma := illumination_sigma (tool m);
    dose_mJ_cm2 := dose;
    exposure_time_s := exposure_time_s (tool m);
    source_power_W := source_power_W (tool m);
    photons_per_nm2 := photons_per_nm2 (tool m)
  |};
  resist := resist m;
  metrics := metrics m
|}.

Definition set_photons_per_nm2 (m : EUVExposureModel) (p : R)
  : EUVExposureModel := {|
  tool := {|
    wavelength_nm := wavelength_nm (tool m);
    numerical_aperture := numerical_aperture (tool m);
    illumination_sigma := illumination_sigma (tool m);
    dose_mJ_cm2 := dose_mJ_cm2 (tool m);
    exposure_time_s := exposure_time_s (tool m);
    source_power_W := source_power_W (tool m);
    photons_per_nm2 := p
  |};
  resist := resist m;
  metrics := metrics m
|}.

(** ** Photon statistics *)

Record photon_statistics : Type := {
  total_photons : R;
  shot_noise : np_float;
  relative_shot_noise : np_float;
  stats_photons_per_nm2 : R
}.

Definition calculate_photon_statistics (m : EUVExposureModel)
  (target_area_um2 : R) : photon_statistics * EUVExposureModel :=
  let dose_j_cm2 := dose_mJ_cm2 (tool m) * 1e-3 in
  let energy_per_photon_j := eV_per_photon * 1.602e-19 in
  let photons_per_cm2 := dose_j_cm2 / energy_per_photon_j in
  let photons_per_nm2' := photons_per_cm2 * 1e-14 in
  let m' := set_photons_per_nm2 m photons_per_nm2' in
  let area_nm2 := target_area_um2 * 1e6 in
  let total := photons_per_nm2' * area_nm2 in
  let shot := np_sqrt total in
  let relative := np_true_divide shot total in
  ({| total_photons := total;
      shot_noise := shot;
      relative_shot_noise := relative;
      stats_photons_per_nm2 := photons_per_nm2' |}, m').

(** ** The pipeline stages *)

Definition Rltb (a b : R) : bool := if Rlt_dec a b then true else false.
Definition Rleb (a b : R) : bool := if Rle_dec a b then true else false.
Definition Reqb (a b : R) : bool := if Req_dec_T a b then true else false.

Record stochastic_metrics : Type := {
  sm_ler_nm : R;
  sm_cd_error_nm : np_float;
  sm_stochastic_defects_per_um2 : R;
  sm_pattern_fidelity : R
}.

Record simulation_results : Type := {
  photon_stats : photon_statistics;
  aerial_image : grid;
  photon_map : grid;
  electron_map : grid;
  acid_map : grid;
  diffused_acid : grid;
  rate_map : grid;
  final_pattern : grid;
  result_metrics : simulation_metrics
}.

Record process_window_result : Type := {
  dose_values : list R;
  focus_values : list R;
  cd_errors : list (list np_float);
  lers : grid;
  process_window : list (list bool);
  window_area : np_float;
  pw_target_cd_nm : R
}.

(** [0 <= nx < width and 0 <= ny < height] *)
Definition in_grid (w h : nat) (nx ny : Z) : bool :=
  ((0 <=? nx) && (nx <? Z.of_nat w) && ((0 <=? ny) && (ny <? Z.of_nat h)))%Z.

(** [self.metrics.update(metrics)] followed by the effective dose. *)
Definition update_metrics (m : EUVExposureModel) (sm : stochastic_metrics)
  : EUVExposureModel := {|
  tool := tool m;
  resist := resist m;
  metrics := {|
    effective_dose_mJ_cm2 := dose_mJ_cm2 (tool m);
    ler_nm := sm_ler_nm sm;
    lwr_nm := lwr_nm (metrics m);
    cd_error_nm := sm_cd_error_nm sm;
    stochastic_defects_per_um2 := sm_stochastic_defects_per_um2 sm;
    process_window_size := process_window_size (metrics m);
    pattern_fidelity := Some (sm_pattern_fidelity sm)
  |}
|}.

Section Pipeline.

(** [scipy.ndimage.gaussian_filter(input, sigma=...)] *)
Variable gaussian_filter : grid -> R -> grid.

(** The standard normal variates behind [random.gauss]. *)
Variable gauss_variates : nat -> R.

(** [random.gauss(mu, sigma)] at position [k] of the stream. *)
Definition random_gauss (mu sigma : R) (k : nat) : R * nat :=
  (mu + gauss_variates k * sigma, S k).

(** The body of [for _ in range(num_electrons)] for the source cell
    [(x, y)]; the state is the generator position and the electron map. *)
Definition scatter_electron (m : EUVExposureModel) (w h x y : nat)
  (st : nat * grid) : nat * grid :=
  let sigma := electron_scattering_range_nm (resist m) / nm_per_pixel in
  let gx := random_gauss 0 sigma (fst st) in
  let dx := py_int (fst gx) in
  let gy := random_gauss 0 sigma (snd gx) in
  let dy := py_int (fst gy) in
  let nx := (Z.of_nat x + dx)%Z in
  let ny := (Z.of_nat y + dy)%Z in
  if in_grid w h nx ny
  then (snd gy, grid_add_at (snd st) (Z.to_nat ny) (Z.to_nat nx) 1.0)
  else (snd gy, snd st).

Definition cascade_cell (m : EUVExposureModel) (photon_map : grid)
  (w h y x : nat) (st : nat * grid) : nat * grid :=
  if Rlt_dec 0 (grid_get photon_map y x) then
    let num_electrons :=
      py_int (grid_get photon_map y x * secondary_electron_yield (resist m)) in
    for_range (Z.to_nat num_electrons) (fun _ => scatter_electron m w h x y) st
  else st.

Definition simulate_electron_cascade (m : EUVExposureModel)
  (photon_map : grid) (k : nat) : grid * nat :=
  let electron_map := np_zeros_like photon_map in
  let h := height photon_map in
  let w := width photon_map in
  let st :=
    for_range h (fun y => for_range w (fun x => cascade_cell m photon_map w h y x))
              (k, electron_map) in
  (snd st, fst st).

Definition simulate_chemical_reactions (m : EUVExposureModel)
  (electron_map : grid) : py_result grid :=
  let h := height electron_map in
  let w := width electron_map in
  let acid_map := np_zeros h w in
  if String.eqb (resist_type (resist m)) "CAR" then
    Returned
      (for_range h (fun y => for_range w (fun x acid_map =>
         if Rlt_dec 0 (grid_get electron_map y x) then
           let acid_generated :=
             grid_get electron_map y x
             * chemical_amplification_factor (resist m) in
           let acid_concentration :=
             acid_generated * (1.0 - quenching_factor (resist m)) in
           let acid_concentration :=
             acid_concentration * reaction_rate_constant (resist m) in
           matrix_set acid_map y x acid_concentration
         else acid_map)) acid_map)
  else if String.eqb (resist_type (resist m)) "MeOx" then
    Returned
      (for_range h (fun y => for_range w (fun x acid_map =>
         if Rlt_dec 0 (grid_get electron_map y x) then
           let reduction := grid_get electron_map y x * 0.85 in
           matrix_set acid_map y x reduction
         else acid_map)) acid_map)
  else Returned acid_map.

Definition simulate_acid_diffusion (m : EUVExposureModel) (acid_map : grid)
  : grid :=
  let sigma_pixels := acid_diffusion_length_nm (resist m) / nm_per_pixel in
  gaussian_filter acid_map sigma_pixels.

Definition calculate_development_rate (m : EUVExposureModel)
  (acid_map : grid) : grid :=
  scalar_div_grid (development_rate_base_nm_s (resist m))
    (scalar_add_grid 1.0
       (np_exp (scalar_mul_grid (- development_contrast (resist m))
                                (grid_sub_scalar acid_map 0.5)))).

Definition simulate_development (rate_map : grid) (development_time_s : R)
  : grid :=
  let development_depth := grid_mul_scalar rate_map development_time_s in
  let resist_thickness_nm := 40.0 in
  let resist_profile :=
    grid_mul_scalar (np_ones_like rate_map) resist_thickness_nm in
  let resist_profile := grid_sub resist_profile development_depth in
  np_where_positive resist_profile 1.0 0.0.

Definition count_defects (pattern_map : grid) : nat :=
  for_range_from 1 (height pattern_map - 1 - 1) (fun y =>
    for_range_from 1 (width pattern_map - 1 - 1) (fun x defects =>
      let around :=
        np_sum (grid_slice pattern_map (y - 1) (y + 2) (x - 1) (x + 2)) in
      if Reqb (grid_get pattern_map y x) 1 && Rleb around 2 then S defects
      else if Reqb (grid_get pattern_map y x) 0 && Rleb 8 around then S defects
      else defects)) 0%nat.

Definition calculate_stochastic_metrics (pattern_map : grid)
  (target_cd_nm : R) : py_result stochastic_metrics :=
  let edges := np_diff_axis1 pattern_map in
  let edge_positions := columns_equal_one edges in
  let ler :=
    if (1 <? length edge_positions)%nat
    then np_std (map IZR edge_positions) * nm_per_pixel
    else 0.0 in
  let measured_cd :=
    np_mul (np_mean (map IZR (np_diff Z.sub edge_positions))) nm_per_pixel in
  let cd_error := np_sub measured_cd target_cd_nm in
  let defects := count_defects pattern_map in
  let area := INR (grid_size pattern_map) * (nm_per_pixel ^ 2) * 1e-6 in
  if Req_dec_T area 0 then Raised ZeroDivisionError
  else
    let defect_density := INR defects / area in
    Returned {| sm_ler_nm := ler;
                sm_cd_error_nm := cd_error;
                sm_stochastic_defects_per_um2 := defect_density;
                sm_pattern_fidelity := 1.0 - defect_density * 0.01 |}.

(** The result carries the content of [self.metrics] at the return; the
    new model and generator position are returned next to it. *)
Definition run_full_simulation (m : EUVExposureModel) (target_pattern : grid)
  (target_cd_nm development_time_s : R) (k : nat)
  : py_result (simulation_results * (EUVExposureModel * nat)) :=
  let ps :=
    calculate_photon_statistics m
      (np_sum target_pattern * (nm_per_pixel ^ 2) * 1e-6) in
  let photon_stats0 := fst ps in
  let m1 := snd ps in
  let sigma_psf := 15.0 / nm_per_pixel in
  let aerial_image0 := gaussian_filter target_pattern sigma_psf in
  let photon_map0 :=
    grid_mul_scalar
      (grid_mul_scalar aerial_image0 (absorption_coefficient (resist m1)))
      (stats_photons_per_nm2 photon_stats0) in
  let ec := simulate_electron_cascade m1 photon_map0 k in
  let electron_map0 := fst ec in
  acid_map0 <- simulate_chemical_reactions m1 electron_map0 ;;
  let diffused_acid0 := simulate_acid_diffusion m1 acid_map0 in
  let rate_map0 := calculate_development_rate m1 diffused_acid0 in
  let final_pattern0 := simulate_development rate_map0 development_time_s in
  metrics0 <- calculate_stochastic_metrics final_pattern0 target_cd_nm ;;
  let m2 := update_metrics m1 metrics0 in
  Returned ({| photon_stats := photon_stats0;
               aerial_image := aerial_image0;
               photon_map := photon_map0;
               electron_map := electron_map0;
               acid_map := acid_map0;
               diffused_acid := diffused_acid0;
               rate_map := rate_map0;
               final_pattern := final_pattern0;
               result_metrics := metrics m2 |}, (m2, snd ec)).

(** State of the dose-focus sweep: the model, the generator position and
    the two result matrices. *)
Definition sweep_state : Type :=
  (EUVExposureModel * nat * list (list np_float) * grid)%type.

Definition sweep_point (target_pattern : grid) (target_cd_nm : R)
  (i : nat) (dose : R) (j : nat) (focus : R) (st : sweep_state)
  : py_result sweep_state :=
  let '(m, k, cd_errors0, lers0) := st in
  let original_dose := dose_mJ_cm2 (tool m) in
  let m := set_dose m dose in
  let original_sigma := 15.0 / nm_per_pixel in
  let focus_sigma := original_sigma * (1 + Rabs focus / 100.0) in
  '(results, (m, k)) <- run_full_simulation m target_pattern target_cd_nm 30.0 k ;;
  let cd_errors0 := matrix_set cd_errors0 i j (cd_error_nm (result_metrics results)) in
  let lers0 := matrix_set lers0 i j (ler_nm (result_metrics results)) in
  let m := set_dose m original_dose in
  Returned (m, k, cd_errors0, lers0).

(** The two nested loops over the dose and focus axes. *)
Definition sweep (target_pattern : grid) (target_cd_nm : R)
  (dose_values0 focus_values0 : list R) (st : sweep_state)
  : py_result sweep_state :=
  for_each_M (enumerate dose_values0) (fun '(i, dose) =>
    for_each_M (enumerate focus_values0) (fun '(j, focus) =>
      sweep_point target_pattern target_cd_nm i dose j focus)) st.

Definition count_true (g : list (list bool)) : nat :=
  list_sum (map (fun row => length (filter (fun b => b) row)) g).

Definition calculate_process_window (m : EUVExposureModel) (target_cd_nm : R)
  (dose_range focus_range : option (R * R)) (steps : nat) (k : nat)
  : py_result (process_window_result * (EUVExposureModel * nat)) :=
  let dose_range :=
    match dose_range with
    | Some d => d
    | None => (dose_mJ_cm2 (tool m) * 0.8, dose_mJ_cm2 (tool m) * 1.2)
    end in
  let focus_range :=
    match focus_range with
    | Some f => f
    | None => (-40.0, 40.0)
    end in
  let dose_values0 := np_linspace (fst dose_range) (snd dose_range) steps in
  let focus_values0 := np_linspace (fst focus_range) (snd focus_range) steps in
  let h := 1000%nat in
  let w := 1000%nat in
  let target_pattern := np_zeros h w in
  let line_width := py_int (target_cd_nm / nm_per_pixel) in
  let target_pattern :=
    assign_columns target_pattern (Z.of_nat (w / 2))
                   (Z.of_nat (w / 2) + line_width) 1.0 in
  let cd_errors0 := repeat (repeat (Num 0) steps) steps in
  let lers0 := np_zeros steps steps in
  '(m', k', cd_errors1, lers1) <-
    sweep target_pattern target_cd_nm dose_values0 focus_values0
          (m, k, cd_errors0, lers0) ;;
  let cd_window :=
    map (map (fun e => np_ltb (np_abs e) (target_cd_nm * 0.1))) cd_errors1 in
  let ler_window := map (map (fun l => Rltb l 1.5)) lers1 in
  let process_window0 := zip_with (zip_with andb) cd_window ler_window in
  let window_area0 :=
    np_true_divide (Num (INR (count_true process_window0)))
                   (INR (steps * steps)) in
  Returned ({| dose_values := dose_values0;
               focus_values := focus_values0;
               cd_errors := cd_errors1;
               lers := lers1;
               process_window := process_window0;
               window_area := window_area0;
               pw_target_cd_nm := target_cd_nm |}, (m', k')).

(** *** The cascade, electron by electron *)

(** Number of electrons the cell of value [p] generates. *)
Definition electron_count (m : EUVExposureModel) (p : R) : nat :=
  if Rlt_dec 0 p
  then Z.to_nat (py_int (p * secondary_electron_yield (resist m)))
  else 0%nat.

(** Source cell [(x, y)] of every electron, in generation order. *)
Definition electron_sources (m : EUVExposureModel) (photon_map : grid)
  : list (nat * nat) :=
  flat_map (fun y =>
    flat_map (fun x => repeat (x, y) (electron_count m (grid_get photon_map y x)))
             (seq 0 (width photon_map)))
    (seq 0 (height photon_map)).

(** Target cell of the [n]-th electron after position [k]: its two
    displacements are the variates [k + 2n] and [k + 2n + 1], scaled by
    the scattering range in cells and converted to integers by [conv]. *)
Definition electron_target (conv : R -> Z) (m : EUVExposureModel) (k : nat)
  (n : nat) (src : nat * nat) : Z * Z :=
  let sigma := electron_scattering_range_nm (resist m) / nm_per_pixel in
  let dx := conv (0 + gauss_variates (k + 2 * n)%nat * sigma) in
  let dy := conv (0 + gauss_variates (k + 2 * n + 1)%nat * sigma) in
  ((Z.of_nat (fst src) + dx)%Z, (Z.of_nat (snd src) + dy)%Z).

Definition targets_of (conv : R -> Z) (m : EUVExposureModel) (k : nat)
  (sources : list (nat * nat)) : list (Z * Z) :=
  map (fun '(n, src) => electron_target conv m k n src) (enumerate sources).

Definition electron_targets (conv : R -> Z) (m : EUVExposureModel)
  (photon_map : grid) (k : nat) : list (Z * Z) :=
  targets_of conv m k (electron_sources m photon_map).

(** One unit of energy into the target cell when it lies inside the grid;
    the electron is dropped otherwise. *)
Definition deposit (w h : nat) (emap : grid) (t : Z * Z) : grid :=
  if in_grid w h (fst t) (snd t)
  then grid_add_at emap (Z.to_nat (snd t)) (Z.to_nat (fst t)) 1
  else emap.

(** Scattering the electrons of a list of sources, one after the other:
    two variates each, one deposit each. *)
Definition scatter_all (conv : R -> Z) (m : EUVExposureModel) (w h : nat)
  (sources : list (nat * nat)) (st : nat * grid) : nat * grid :=
  ((fst st + 2 * length sources)%nat,
   fold_left (deposit w h) (targets_of conv m (fst st) sources) (snd st)).

(** Rounding to the nearest integer (ties upward). *)
Definition round_nearest (x : R) : Z := Zfloor (x + 1 / 2).

(** The cascade in the words of the specification (section 4.3): every
    cell of positive value generates its electrons, each displacement is
    rounded to the nearest integer cell offset, and one unit of energy is
    deposited at every target inside the grid. *)
Definition spec_electron_cascade (m : EUVExposureModel) (photon_map : grid)
  (k : nat) : grid :=
  fold_left (deposit (width photon_map) (height photon_map))
            (electron_targets round_nearest m photon_map k)
            (np_zeros_like photon_map).

End Pipeline.

(** Number of electrons of a list whose target is the cell [(x, y)], and
    number of electrons whose source is the cell [(x, y)]. *)
Definition hits (targets : list (Z * Z)) (x y : nat) : nat :=
  length (filter (fun t => (fst t =? Z.of_nat x)%Z && (snd t =? Z.of_nat y)%Z)
                 targets).

Definition sources_at (sources : list (nat * nat)) (x y : nat) : nat :=
  length (filter (fun s => (fst s =? x)%nat && (snd s =? y)%nat) sources).

(** A list of [h] rows of [w] cells. *)
Definition well_shaped (w h : nat) (g : grid) : Prop :=
  length g = h /\ rectangular w g.

(** Number of removed cells (value 0) of a pattern. *)
Definition zero_cells (pattern : grid) : nat :=
  list_sum (map (fun row => length (filter (fun v => Reqb v 0) row)) pattern).

Definition all_cells (P : R -> Prop) (g : grid) : Prop :=
  Forall (Forall P) g.

(** A resist record whose chemistry is neither ['CAR'] nor ['MeOx']. *)
Definition pmma_resist : resist_parameters := {|
  resist_type := "PMMA"%string;
  absorption_coefficient := 0.78;
  secondary_electron_yield := 3.2;
  electron_scattering_range_nm := 4.8;
  chemical_amplification_factor := 500;
  acid_diffusion_length_nm := 5.2;
  quenching_factor := 0.15;
  reaction_rate_constant := 0.85;
  stochastic_factor := 1.25;
  development_rate_base_nm_s := 0.5;
  development_contrast := 4.5
|}.

(** Two small photon maps: one exposed cell in the centre of a 3x3 grid and
    one in the corner of a 2x2 grid. *)
Definition center_cell : grid := [[0; 0; 0]; [0; 1; 0]; [0; 0; 0]].
Definition corner_cell : grid := [[1; 0]; [0; 0]].

(** A filter that returns an array of the shape of its input, and the
    simplest one: the filter whose output is zero everywhere. *)
Definition shape_preserving (gaussian_filter : grid -> R -> grid) : Prop :=
  forall g sigma, well_shaped (width g) (height g) (gaussian_filter g sigma).

Definition zero_filter (g : grid) (sigma : R) : grid :=
  np_zeros (height g) (width g).

(** What a sweep reports besides its focus axis: the two result matrices,
    the window, its area, the dose axis, and the model and generator
    position it leaves behind. *)
Definition sweep_report
  (r : process_window_result * (EUVExposureModel * nat)) :=
  (cd_errors (fst r), lers (fst r), process_window (fst r),
   window_area (fst r), dose_values (fst r), snd r).

(** A metal-oxide resist record. *)
Definition meox_resist : resist_parameters := {|
  resist_type := "MeOx"%string;
  absorption_coefficient := 0.78;
  secondary_electron_yield := 3.2;
  electron_scattering_range_nm := 4.8;
  chemical_amplification_factor := 500;
  acid_diffusion_length_nm := 5.2;
  quenching_factor := 0.15;
  reaction_rate_constant := 0.85;
  stochastic_factor := 1.25;
  development_rate_base_nm_s := 0.5;
  development_contrast := 4.5
|}.

(** ** [src/tests/validation_tests.py]: the process-window test *)

(** [lo < a < hi] on a numpy scalar. *)
Definition np_between (lo : R) (a : np_float) (hi : R) : bool :=
  match a with
  | Num x => Rltb lo x && Rltb x hi
  | PosInf | NegInf | NaN => false
  end.

(** [(axis[-1] - axis[0]) * np.mean(np.diff(axis) > 0)] for a non-empty
    axis (on an empty one the indexing raises). *)
Definition latitude (axis : list R) : np_float :=
  np_mul (np_mean (map (fun d => if Rlt_dec 0 d then 1 else 0)
                       (np_diff Rminus axis)))
         (last axis 0 - hd 0 axis).

(** [test_process_window]: the default model at dose 30, the sweep for the
    target CD 16 with 15 steps, and the two assertions on the latitudes;
    the result is [true] when both assertions hold. *)
Definition test_process_window (gaussian_filter : grid -> R -> grid)
  (gauss_variates : nat -> R) (k : nat) : py_result bool :=
  let model := set_dose (init None None) 30.0 in
  pw <- calculate_process_window gaussian_filter gauss_variates model 16.0
          None None 15 k ;;
  let dose_lat := latitude (dose_values (fst pw)) in
  let focus_lat := latitude (focus_values (fst pw)) in
  Returned (np_between 18.0 dose_lat 22.0 && np_between 36.0 focus_lat 44.0).

(** ** The development of one cell in binary64 arithmetic

    The operations of [calculate_development_rate] and
    [simulate_development] on one cell, in the order of the source, on the
    IEEE 754 binary64 floats of the kernel.  [np.exp] is library code: it is
    given where its binary64 result is known exactly, the underflow range
    (for x < -746 the exponential is below half the smallest subnormal and
    is rounded to 0.0) and the argument 0. *)
Module Float64.

Import PrimFloat.
Local Open Scope float_scope.

Definition np_exp (x : float) : option float :=
  if x <? -746 then Some 0
  else if x =? 0 then Some 1
  else None.

(** [base / (1.0 + np.exp(-contrast * (acid - 0.5)))] *)
Definition development_rate (base contrast acid : float) : option float :=
  match np_exp (- contrast * (acid - 0.5)) with
  | Some e => Some (base / (1.0 + e))
  | None => None
  end.

(** [rate * development_time_s] *)
Definition development_depth (rate development_time_s : float) : float :=
  rate * development_time_s.

(** [np.where(1.0 * 40.0 - depth > 0, 1.0, 0.0)] *)
Definition pattern (depth : float) : float :=
  let resist_thickness_nm := 40.0 in
  let resist_profile := 1.0 * resist_thickness_nm in
  let resist_profile := resist_profile - depth in
  if 0 <? resist_profile then 1.0 else 0.0.

(** The default base rate, contrast and development time, and the acid
    concentration one electron generates in the default resist
    (1 * 500 * (1 - 0.15) * 0.85). *)
Definition base_rate : float := 0.5.
Definition contrast : float := 4.5.
Definition development_time : float := 30.0.
Definition one_electron_acid : float := 361.25.
Definition fifteen : float := 15.0.
Definition one : float := 1.0.

End Float64.

(** The two cell-wise laws of the development model. *)
Definition rate_of_acid (base contrast c : R) : R :=
  base / (1 + exp (- contrast * (c - 0.5))).

Definition remains (r t : R) : R :=
  if Rlt_dec 0 (40 - r * t) then 1 else 0.

(** * Properties *)

(** ** Evaluating the decisions on reals *)

Ltac decide_reals :=
  repeat match goal with
    | |- context [Rlt_dec ?a ?b] => destruct (Rlt_dec a b); try lra
    | |- context [Rle_dec ?a ?b] => destruct (Rle_dec a b); try lra
    | |- context [Req_dec_T ?a ?b] => destruct (Req_dec_T a b); try lra
    end.

Lemma py_int_nonneg (x : R) (z : Z) :
  0 <= x -> IZR z <= x < IZR z + 1 -> py_int x = z.
Proof.
  intros Hx Hz. unfold py_int.
  destruct (Rle_dec 0 x) as [_ | Hn]; [now apply Zfloor_eq | contradiction].
Qed.

Lemma py_int_floor (x : R) : 0 <= x -> py_int x = Zfloor x.
Proof.
  intros Hx. unfold py_int. now destruct (Rle_dec 0 x).
Qed.

(** ** Photon statistics *)

Lemma photons_per_nm2_formula (m : EUVExposureModel) (area : R) :
  stats_photons_per_nm2 (fst (calculate_photon_statistics m area))
  = dose_mJ_cm2 (tool m) * 1e-3 / (92.0 * 1.602e-19) * 1e-14.
Proof. reflexivity. Qed.

(** C5.  At dose 30 mJ/cm2 (92 eV per photon) the reported photons per nm2
    are 30e-3 / (92 * 1.602e-19) * 1e-14, a value between 20.35 and 20.36:
    it is not within 2% of 24.5 (the relative deviation exceeds 16%). *)
Theorem photons_per_nm2_at_dose_30 (m : EUVExposureModel) (area : R) :
  dose_mJ_cm2 (tool m) = 30.0 ->
  let p := stats_photons_per_nm2 (fst (calculate_photon_statistics m area)) in
  20.35 < p < 20.36 /\
  ~ (Rabs (p - 24.5) / 24.5 < 0.02) /\
  0.16 < Rabs (p - 24.5) / 24.5.
Proof.
  intros Hdose p.
  assert (Hp : 20.35 < p < 20.36).
  { unfold p. rewrite photons_per_nm2_formula, Hdose. lra. }
  assert (Habs : Rabs (p - 24.5) = 24.5 - p).
  { rewrite Rabs_left by lra. lra. }
  rewrite Habs. repeat split; lra.
Qed.

Lemma photons_per_nm2_at_dose_30_witness :
  dose_mJ_cm2 (tool (init None None)) = 30.0 /\
  ~ (Rabs (stats_photons_per_nm2
             (fst (calculate_photon_statistics (init None None) 1.0)) - 24.5)
     / 24.5 < 0.02).
Proof.
  split; [reflexivity |].
  apply (photons_per_nm2_at_dose_30 (init None None) 1.0). reflexivity.
Defined.

Lemma photons_per_nm2_sign (m : EUVExposureModel) (area : R) :
  0 < dose_mJ_cm2 (tool m) ->
  0 < stats_photons_per_nm2 (fst (calculate_photon_statistics m area)).
Proof.
  intros Hdose. rewrite photons_per_nm2_formula.
  apply Rmult_lt_0_compat; [| lra].
  apply Rdiv_lt_0_compat; lra.
Qed.

Lemma total_photons_formula (m : EUVExposureModel) (area : R) :
  total_photons (fst (calculate_photon_statistics m area))
  = stats_photons_per_nm2 (fst (calculate_photon_statistics m area))
    * (area * 1e6).
Proof. reflexivity. Qed.

Lemma np_sqrt_zero : np_sqrt 0 = Num 0.
Proof.
  unfold np_sqrt. destruct (Rlt_dec 0 0); [lra | now rewrite sqrt_0].
Qed.

Lemma np_sqrt_negative (x : R) : x < 0 -> np_sqrt x = NaN.
Proof.
  intros Hx. unfold np_sqrt. destruct (Rlt_dec x 0); [reflexivity | lra].
Qed.

Lemma np_zero_divided_by_zero : np_true_divide (Num 0) 0 = NaN.
Proof.
  unfold np_true_divide. now decide_reals.
Qed.

Lemma negative_area_statistics (m : EUVExposureModel) (area : R) :
  0 < dose_mJ_cm2 (tool m) ->
  area < 0 ->
  total_photons (fst (calculate_photon_statistics m area)) < 0 /\
  shot_noise (fst (calculate_photon_statistics m area)) = NaN.
Proof.
  intros Hdose Harea.
  pose proof (photons_per_nm2_sign m area Hdose) as Hp.
  assert (Ht : total_photons (fst (calculate_photon_statistics m area)) < 0).
  { rewrite total_photons_formula. nra. }
  split; [exact Ht |].
  change (np_sqrt (total_photons (fst (calculate_photon_statistics m area)))
          = NaN).
  now apply np_sqrt_negative.
Qed.

(** C8 (as the code behaves).  For a positive dose and a target area <= 0 the
    relative shot noise is [nan].  At area 0 the total photons and the shot
    noise are 0 and the [nan] is the result of the numeric division 0/0; at
    a negative area the total photons are negative and the shot noise is the
    [nan] of the square root of a negative number. *)
Theorem photon_statistics_nonpositive_area (m : EUVExposureModel) (area : R) :
  0 < dose_mJ_cm2 (tool m) ->
  area <= 0 ->
  let s := fst (calculate_photon_statistics m area) in
  relative_shot_noise s = NaN /\
  (area = 0 ->
   total_photons s = 0 /\ shot_noise s = Num 0 /\
   relative_shot_noise s = np_true_divide (Num 0) 0) /\
  (area < 0 -> total_photons s < 0 /\ shot_noise s = NaN).
Proof.
  intros Hdose Harea s.
  pose proof (photons_per_nm2_sign m area Hdose) as Hp.
  pose proof (total_photons_formula m area) as Ht. fold s in Hp, Ht.
  assert (Hrel : relative_shot_noise s
                 = np_true_divide (np_sqrt (total_photons s)) (total_photons s))
    by reflexivity.
  assert (Hshot : shot_noise s = np_sqrt (total_photons s)) by reflexivity.
  assert (Hzero : area = 0 -> total_photons s = 0).
  { intros ->. rewrite Ht. lra. }
  assert (Hneg : area < 0 -> total_photons s < 0).
  { intros Hlt. now apply negative_area_statistics. }
  split; [| split].
  - rewrite Hrel. destruct (Req_dec_T area 0) as [E | E].
    + rewrite (Hzero E), np_sqrt_zero. apply np_zero_divided_by_zero.
    + rewrite np_sqrt_negative by (apply Hneg; lra). reflexivity.
  - intros E. rewrite Hrel, Hshot, (Hzero E), np_sqrt_zero. auto.
  - intros Hlt. split; [now apply Hneg |].
    rewrite Hshot. apply np_sqrt_negative. now apply Hneg.
Qed.

Lemma photon_statistics_nonpositive_area_witness :
  0 < dose_mJ_cm2 (tool (init None None)) /\ 0 <= 0 /\
  relative_shot_noise (fst (calculate_photon_statistics (init None None) 0))
  = NaN.
Proof.
  assert (Hdose : 0 < dose_mJ_cm2 (tool (init None None))) by (simpl; lra).
  split; [exact Hdose |]. split; [lra |].
  apply (photon_statistics_nonpositive_area (init None None) 0 Hdose).
  lra.
Defined.

(** C8 (as stated) fails: at the target area -1 of the default model the
    total photons are not 0 and the shot noise is [nan], not 0. *)
Lemma photon_statistics_negative_area_counterexample :
  let s := fst (calculate_photon_statistics (init None None) (-1)) in
  -1 <= 0 /\
  total_photons s <> 0 /\ shot_noise s = NaN /\ shot_noise s <> Num 0.
Proof.
  intros s.
  assert (Hdose : 0 < dose_mJ_cm2 (tool (init None None))) by (simpl; lra).
  assert (Harea : -1 <= 0) by lra.
  destruct (negative_area_statistics (init None None) (-1) Hdose)
    as [Ht Hs]; [lra |].
  fold s in Ht, Hs. repeat split; [lra | lra | exact Hs |].
  rewrite Hs. discriminate.
Qed.

(** ** Grids *)

Lemma grid_map_map (f g : R -> R) (a : grid) :
  grid_map f (grid_map g a) = grid_map (fun v => f (g v)) a.
Proof.
  unfold grid_map. rewrite map_map. apply map_ext. intros row. apply map_map.
Qed.

Lemma grid_map_ext (f g : R -> R) (a : grid) :
  (forall v, f v = g v) -> grid_map f a = grid_map g a.
Proof.
  intros Hfg. unfold grid_map. apply map_ext. intros row. now apply map_ext.
Qed.

Lemma zip_with_map {A B C D : Type} (f : B -> C -> D) (g : A -> B) (h : A -> C)
  (l : list A) :
  zip_with f (map g l) (map h l) = map (fun x => f (g x) (h x)) l.
Proof.
  induction l as [| a l IH]; simpl; [reflexivity | now rewrite IH].
Qed.

Lemma grid_sub_map (f g : R -> R) (a : grid) :
  grid_sub (grid_map f a) (grid_map g a) = grid_map (fun v => f v - g v) a.
Proof.
  unfold grid_sub, grid_map. rewrite zip_with_map.
  apply map_ext. intros row. apply zip_with_map.
Qed.

Lemma all_cells_grid_map (P Q : R -> Prop) (f : R -> R) (g : grid) :
  (forall v, P v -> Q (f v)) -> all_cells P g -> all_cells Q (grid_map f g).
Proof.
  intros Hf Hg. unfold all_cells, grid_map in *.
  apply Forall_map. eapply Forall_impl; [| exact Hg].
  intros row Hrow. apply Forall_map. eapply Forall_impl; [| exact Hrow].
  exact Hf.
Qed.

Lemma all_cells_trivial (P : R -> Prop) (g : grid) :
  (forall v, P v) -> all_cells P g.
Proof.
  intros HP. unfold all_cells.
  apply Forall_forall. intros row _. apply Forall_forall. intros v _. apply HP.
Qed.

Lemma height_grid_map (f : R -> R) (g : grid) :
  height (grid_map f g) = height g.
Proof. unfold height, grid_map. apply length_map. Qed.

Lemma width_grid_map (f : R -> R) (g : grid) :
  width (grid_map f g) = width g.
Proof.
  unfold width, grid_map. destruct g as [| row g]; simpl;
    [reflexivity | apply length_map].
Qed.

Lemma grid_get_grid_map (f : R -> R) (g : grid) (y x : nat) :
  (y < height g)%nat -> (x < length (nth y g []))%nat ->
  grid_get (grid_map f g) y x = f (grid_get g y x).
Proof.
  intros Hy Hx. unfold grid_get, grid_map, height in *.
  rewrite (nth_indep _ [] (map f [])) by now rewrite length_map.
  rewrite map_nth.
  rewrite (nth_indep _ 0 (f 0)) by now rewrite length_map.
  apply map_nth.
Qed.

(** ** Development *)

Lemma calculate_development_rate_pointwise (m : EUVExposureModel) (acid : grid) :
  calculate_development_rate m acid
  = grid_map (rate_of_acid (development_rate_base_nm_s (resist m))
                           (development_contrast (resist m))) acid.
Proof.
  unfold calculate_development_rate, scalar_div_grid, scalar_add_grid, np_exp,
    scalar_mul_grid, grid_sub_scalar.
  rewrite !grid_map_map. apply grid_map_ext. intros c.
  unfold rate_of_acid. f_equal. lra.
Qed.

Lemma simulate_development_pointwise (rate : grid) (t : R) :
  simulate_development rate t = grid_map (fun r => remains r t) rate.
Proof.
  unfold simulate_development, np_where_positive, grid_mul_scalar, np_ones_like.
  rewrite grid_map_map, grid_sub_map, grid_map_map.
  apply grid_map_ext. intros r. unfold remains.
  replace (1 * 40.0 - r * t) with (40 - r * t) by lra.
  destruct (Rlt_dec 0 (40 - r * t)); lra.
Qed.

Lemma remains_binary (r t : R) : remains r t = 0 \/ remains r t = 1.
Proof. unfold remains. destruct (Rlt_dec 0 (40 - r * t)); auto. Qed.

(** C10.  The development rate is, cell by cell,
    base_rate / (1 + exp (- contrast * (c - 0.5))); the developed pattern
    has the shape of the rate map and is, cell by cell, 1 where
    40 - r * t > 0 and 0 elsewhere; every cell of it is 0 or 1. *)
Theorem development_rate_and_pattern (m : EUVExposureModel) (acid rate : grid)
  (t : R) :
  calculate_development_rate m acid
  = grid_map (fun c => development_rate_base_nm_s (resist m)
                       / (1 + exp (- development_contrast (resist m) * (c - 0.5))))
             acid /\
  simulate_development rate t
  = grid_map (fun r => if Rlt_dec 0 (40 - r * t) then 1 else 0) rate /\
  (forall y x, (y < height rate)%nat -> (x < length (nth y rate []))%nat ->
     (40 - grid_get rate y x * t > 0 ->
      grid_get (simulate_development rate t) y x = 1) /\
     (~ 40 - grid_get rate y x * t > 0 ->
      grid_get (simulate_development rate t) y x = 0)) /\
  all_cells (fun v => v = 0 \/ v = 1) (simulate_development rate t).
Proof.
  split; [apply calculate_development_rate_pointwise |].
  split; [apply simulate_development_pointwise |].
  split.
  - intros y x Hy Hx. rewrite simulate_development_pointwise.
    rewrite grid_get_grid_map by assumption. unfold remains.
    destruct (Rlt_dec 0 (40 - grid_get rate y x * t)); split; intros; lra.
  - rewrite simulate_development_pointwise.
    apply all_cells_grid_map with (P := fun _ => True).
    + intros v _. apply remains_binary.
    + now apply all_cells_trivial.
Qed.

(** *** Monotonicity in the development time *)

Lemma remains_zero_monotone (r t1 t2 : R) :
  0 <= t1 -> t1 <= t2 -> remains r t1 = 0 -> remains r t2 = 0.
Proof.
  intros H1 H12. unfold remains.
  destruct (Rlt_dec 0 (40 - r * t1)) as [_ | Hn1]; [lra |]. intros _.
  destruct (Rlt_dec 0 (40 - r * t2)) as [Hp2 |]; [| reflexivity].
  exfalso. apply Hn1.
  destruct (Rle_dec r 0) as [Hr | Hr]; nra.
Qed.

Lemma Reqb_eq (a b : R) : Reqb a b = true <-> a = b.
Proof.
  unfold Reqb. destruct (Req_dec_T a b); split; intros; congruence.
Qed.

Lemma count_zero_monotone (f g : R -> R) (row : list R) :
  (forall v, f v = 0 -> g v = 0) ->
  (length (filter (fun v => Reqb v 0) (map f row))
   <= length (filter (fun v => Reqb v 0) (map g row)))%nat.
Proof.
  intros Hfg. induction row as [| v row IH]; simpl; [lia |].
  destruct (Reqb (f v) 0) eqn:Ef, (Reqb (g v) 0) eqn:Eg; simpl; try lia.
  apply Reqb_eq in Ef. apply Hfg, Reqb_eq in Ef. congruence.
Qed.

Lemma zero_cells_monotone (f g : R -> R) (a : grid) :
  (forall v, f v = 0 -> g v = 0) ->
  (zero_cells (grid_map f a) <= zero_cells (grid_map g a))%nat.
Proof.
  intros Hfg. unfold zero_cells, grid_map.
  induction a as [| row a IH]; simpl; [lia |].
  pose proof (count_zero_monotone f g row Hfg). lia.
Qed.

(** Removed cells stay removed when the (non-negative) time grows. *)
Lemma development_monotone (rate : grid) (t1 t2 : R) :
  0 <= t1 -> t1 <= t2 ->
  (zero_cells (simulate_development rate t1)
   <= zero_cells (simulate_development rate t2))%nat /\
  (all_cells (fun v => v = 0) (simulate_development rate t1) ->
   all_cells (fun v => v = 0) (simulate_development rate t2)).
Proof.
  intros H1 H12. rewrite !simulate_development_pointwise. split.
  - apply zero_cells_monotone. intros v. now apply remains_zero_monotone.
  - unfold all_cells, grid_map. rewrite !Forall_map.
    intros Hall. eapply Forall_impl; [| exact Hall].
    intros row Hrow. rewrite Forall_map in *.
    eapply Forall_impl; [| exact Hrow].
    intros v. now apply remains_zero_monotone.
Qed.

(** C9 (as the code behaves).  For development times 0 <= t1 <= t2 the number
    of removed cells at t2 is at least the number at t1, and a pattern that
    is fully removed at t1 is fully removed at t2. *)
Theorem development_time_monotone (rate : grid) (t1 t2 : R) :
  0 <= t1 -> t1 < t2 ->
  (zero_cells (simulate_development rate t1)
   <= zero_cells (simulate_development rate t2))%nat /\
  (all_cells (fun v => v = 0) (simulate_development rate t1) ->
   all_cells (fun v => v = 0) (simulate_development rate t2)).
Proof.
  intros H1 H12. apply development_monotone; lra.
Qed.

Lemma development_time_monotone_witness :
  0 <= 10 /\ 10 < 100 /\
  le (zero_cells (simulate_development [[0.5; 0.1]] 10))
     (zero_cells (simulate_development [[0.5; 0.1]] 100)).
Proof.
  assert (H1 : 0 <= 10) by lra.
  assert (H2 : 10 < 100) by lra.
  split; [exact H1 |]. split; [exact H2 |].
  apply (development_time_monotone [[0.5; 0.1]] 10 100 H1 H2).
Defined.

Lemma remains_at_half_rate (t : R) : t < 80 -> remains 0.5 t = 1.
Proof.
  intros Ht. unfold remains. destruct (Rlt_dec 0 (40 - 0.5 * t)); lra.
Qed.

(** C9 (as stated) fails: for the one-cell rate map of rate 0.5 nm/s no cell
    is removed at 30 s nor at 31 s, so the removed area does not strictly
    increase although the pattern is not fully removed. *)
Lemma development_time_not_strict_counterexample :
  30 < 31 /\
  zero_cells (simulate_development [[0.5]] 30) = 0%nat /\
  zero_cells (simulate_development [[0.5]] 31) = 0%nat /\
  ~ lt (zero_cells (simulate_development [[0.5]] 30))
       (zero_cells (simulate_development [[0.5]] 31)) /\
  ~ all_cells (fun v => v = 0) (simulate_development [[0.5]] 30).
Proof.
  assert (Hz : forall t, t < 80 ->
            simulate_development [[0.5]] t = [[1]]).
  { intros t Ht. rewrite simulate_development_pointwise. simpl.
    now rewrite remains_at_half_rate. }
  assert (Hc : zero_cells [[1]] = 0%nat).
  { unfold zero_cells. simpl. unfold Reqb.
    destruct (Req_dec_T 1 0); [lra | reflexivity]. }
  rewrite !Hz by lra. rewrite Hc.
  repeat split; try lra; try lia.
  intros Hall. inversion Hall as [| ? ? Hrow _]; subst.
  inversion Hrow as [| ? ? Hv _]; subst. lra.
Qed.

(** With negative development times even the weak monotonicity fails. *)
Lemma development_negative_time :
  zero_cells (simulate_development [[-1]] (-50)) = 1%nat /\
  zero_cells (simulate_development [[-1]] 0) = 0%nat.
Proof.
  rewrite !simulate_development_pointwise. unfold zero_cells, remains. simpl.
  unfold Reqb.
  destruct (Rlt_dec 0 (40 - -1 * -50)); [lra |].
  destruct (Rlt_dec 0 (40 - -1 * 0)); [| lra].
  destruct (Req_dec_T 0 0); [| lra].
  destruct (Req_dec_T 1 0); [lra |]. split; reflexivity.
Qed.

(** ** Chemical reactions *)

Lemma all_cells_np_zeros (h w : nat) : all_cells (fun v => v = 0) (np_zeros h w).
Proof.
  unfold all_cells, np_zeros.
  apply Forall_forall. intros row Hrow. apply repeat_spec in Hrow. subst row.
  apply Forall_forall. intros v Hv. now apply repeat_spec in Hv.
Qed.

Lemma shape_np_zeros (g : grid) :
  height (np_zeros (height g) (width g)) = height g /\
  width (np_zeros (height g) (width g)) = width g.
Proof.
  unfold np_zeros, height, width. rewrite repeat_length. split; [reflexivity |].
  destruct g as [| row g]; simpl; [reflexivity | apply repeat_length].
Qed.

Lemma simulate_chemical_reactions_returns (m : EUVExposureModel) (emap : grid) :
  exists acid, simulate_chemical_reactions m emap = Returned acid.
Proof.
  unfold simulate_chemical_reactions.
  destruct (String.eqb _ "CAR"); [eauto |].
  destruct (String.eqb _ "MeOx"); eauto.
Qed.

Lemma unknown_chemistry_zero_map (m : EUVExposureModel) (emap : grid) :
  resist_type (resist m) <> "CAR"%string ->
  resist_type (resist m) <> "MeOx"%string ->
  simulate_chemical_reactions m emap
  = Returned (np_zeros (height emap) (width emap)).
Proof.
  intros Hcar Hmeox. unfold simulate_chemical_reactions.
  apply String.eqb_neq in Hcar, Hmeox. now rewrite Hcar, Hmeox.
Qed.

(** C2 (as the code behaves).  When the chemistry is neither ['CAR'] nor
    ['MeOx'], [simulate_chemical_reactions] raises nothing: it returns the
    all-zero map of the shape of the electron map. *)
Theorem unknown_chemistry_returns_zero_map (m : EUVExposureModel) (emap : grid) :
  resist_type (resist m) <> "CAR"%string ->
  resist_type (resist m) <> "MeOx"%string ->
  exists acid,
    simulate_chemical_reactions m emap = Returned acid /\
    all_cells (fun v => v = 0) acid /\
    height acid = height emap /\ width acid = width emap.
Proof.
  intros Hcar Hmeox. exists (np_zeros (height emap) (width emap)).
  split; [now apply unknown_chemistry_zero_map |].
  split; [apply all_cells_np_zeros | apply shape_np_zeros].
Qed.

Lemma unknown_chemistry_returns_zero_map_witness :
  resist_type (resist (init None (Some pmma_resist))) <> "CAR"%string /\
  resist_type (resist (init None (Some pmma_resist))) <> "MeOx"%string /\
  exists acid,
    simulate_chemical_reactions (init None (Some pmma_resist)) [[2; 0]]
    = Returned acid /\
    all_cells (fun v => v = 0) acid /\
    height acid = 1%nat /\ width acid = 2%nat.
Proof.
  assert (Hcar : resist_type (resist (init None (Some pmma_resist)))
                 <> "CAR"%string) by discriminate.
  assert (Hmeox : resist_type (resist (init None (Some pmma_resist)))
                  <> "MeOx"%string) by discriminate.
  split; [exact Hcar |]. split; [exact Hmeox |].
  apply (unknown_chemistry_returns_zero_map
           (init None (Some pmma_resist)) [[2; 0]] Hcar Hmeox).
Defined.

(** C2 (as stated) fails: with the chemistry ['PMMA'] and the one-cell
    electron map of value 1 the call raises nothing and returns the zero
    map. *)
Lemma unknown_chemistry_counterexample :
  resist_type pmma_resist <> "CAR"%string /\
  resist_type pmma_resist <> "MeOx"%string /\
  simulate_chemical_reactions (init None (Some pmma_resist)) [[1]]
  = Returned [[0]] /\
  ~ (exists e, simulate_chemical_reactions (init None (Some pmma_resist)) [[1]]
               = Raised e).
Proof.
  assert (Hret : simulate_chemical_reactions (init None (Some pmma_resist)) [[1]]
                 = Returned [[0]]).
  { rewrite unknown_chemistry_zero_map by discriminate. reflexivity. }
  split; [discriminate |]. split; [discriminate |]. split; [exact Hret |].
  intros [e He]. rewrite Hret in He. discriminate.
Qed.

(** ** Stochastic metrics *)

Lemma np_diff_short {A : Type} (sub : A -> A -> A) (l : list A) :
  (length l < 2)%nat -> np_diff sub l = [].
Proof.
  destruct l as [| a [| b l]]; simpl; intros; [reflexivity | reflexivity | lia].
Qed.

Lemma np_mean_empty : np_mean [] = NaN.
Proof. unfold np_mean. simpl. apply np_zero_divided_by_zero. Qed.

Lemma metrics_area_zero (pattern : grid) :
  INR (grid_size pattern) * (nm_per_pixel ^ 2) * 1e-6 = 0 <->
  grid_size pattern = 0%nat.
Proof.
  unfold nm_per_pixel. split.
  - intros H. apply INR_eq. simpl INR. nra.
  - intros ->. simpl INR. lra.
Qed.

(** C3 (what the code does).  When fewer than two low-to-high edges are
    detected, the call raises [ZeroDivisionError] on a pattern without cells
    and otherwise returns LER = 0 together with a CD error that is [nan],
    the mean of an empty array. *)
Theorem metrics_with_fewer_than_two_edges (pattern : grid) (target_cd_nm : R) :
  (length (columns_equal_one (np_diff_axis1 pattern)) < 2)%nat ->
  match calculate_stochastic_metrics pattern target_cd_nm with
  | Returned sm =>
      grid_size pattern <> 0%nat /\ sm_ler_nm sm = 0 /\ sm_cd_error_nm sm = NaN
  | Raised e => grid_size pattern = 0%nat /\ e = ZeroDivisionError
  end.
Proof.
  intros Hedges. unfold calculate_stochastic_metrics.
  destruct (Req_dec_T _ 0) as [Ea | Ea].
  - split; [now apply metrics_area_zero | reflexivity].
  - cbn [sm_ler_nm sm_cd_error_nm]. split; [| split].
    + intros Hs. apply Ea. now apply metrics_area_zero.
    + replace (1 <? _)%nat with false
        by (symmetry; apply Nat.ltb_ge; lia).
      lra.
    + rewrite np_diff_short by exact Hedges. simpl map.
      now rewrite np_mean_empty.
Qed.

Lemma full_pattern_has_no_edge :
  columns_equal_one (np_diff_axis1 [[1; 1]; [1; 1]]) = [].
Proof.
  unfold columns_equal_one, np_diff_axis1. simpl.
  destruct (Req_dec_T (1 - 1) 1); [lra | reflexivity].
Qed.

Lemma metrics_with_fewer_than_two_edges_witness :
  lt (length (columns_equal_one (np_diff_axis1 [[1; 1]; [1; 1]]))) 2 /\
  match calculate_stochastic_metrics [[1; 1]; [1; 1]] 16.0 with
  | Returned sm => sm_ler_nm sm = 0 /\ sm_cd_error_nm sm = NaN
  | Raised e => False
  end.
Proof.
  assert (H : lt (length (columns_equal_one (np_diff_axis1 [[1; 1]; [1; 1]])))
                 2).
  { rewrite full_pattern_has_no_edge. simpl. lia. }
  split; [exact H |].
  pose proof (metrics_with_fewer_than_two_edges [[1; 1]; [1; 1]] 16.0 H) as Hm.
  destruct (calculate_stochastic_metrics [[1; 1]; [1; 1]] 16.0) as [sm | e].
  - destruct Hm as (_ & Hl & Hc). now split.
  - destruct Hm as [Hs _]. discriminate Hs.
Defined.
(** ** The electron cascade *)

Section Cascade.

Variable gauss_variates : nat -> R.
Variable m : EUVExposureModel.

Lemma fold_left_app_seq {S : Type} (body : nat -> S -> S) (n : nat) (s : S) :
  for_range (Datatypes.S n) body s = body n (for_range n body s).
Proof.
  unfold for_range. rewrite seq_S, fold_left_app. reflexivity.
Qed.

Lemma combine_seq_shift {A : Type} (l : list A) (s d : nat) :
  combine (seq (s + d) (length l)) l
  = map (fun p => ((fst p + d)%nat, snd p)) (combine (seq s (length l)) l).
Proof.
  revert s. induction l as [| a l IH]; intros s; simpl; [reflexivity |].
  f_equal. apply (IH (S s)).
Qed.

Lemma combine_seq_app {A : Type} (a b : list A) (s : nat) :
  combine (seq s (length (a ++ b))) (a ++ b)
  = combine (seq s (length a)) a
    ++ combine (seq (s + length a) (length b)) b.
Proof.
  revert s. induction a as [| x a IH]; intros s; simpl.
  - now rewrite Nat.add_0_r.
  - f_equal. rewrite IH. do 2 f_equal. f_equal. lia.
Qed.

Lemma electron_target_shift (conv : R -> Z) (k n d : nat) (src : nat * nat) :
  electron_target gauss_variates conv m k (n + d) src
  = electron_target gauss_variates conv m (k + 2 * d) n src.
Proof.
  unfold electron_target.
  replace (k + 2 * (n + d))%nat with (k + 2 * d + 2 * n)%nat by lia.
  reflexivity.
Qed.

Lemma targets_of_app (conv : R -> Z) (k : nat) (a b : list (nat * nat)) :
  targets_of gauss_variates conv m k (a ++ b)
  = targets_of gauss_variates conv m k a
    ++ targets_of gauss_variates conv m (k + 2 * length a) b.
Proof.
  unfold targets_of, enumerate.
  rewrite combine_seq_app, map_app. f_equal.
  rewrite (combine_seq_shift b 0 (length a)), map_map.
  apply map_ext. intros [n src]. simpl. apply electron_target_shift.
Qed.

Lemma scatter_all_nil (conv : R -> Z) (w h : nat) (st : nat * grid) :
  scatter_all gauss_variates conv m w h [] st = st.
Proof.
  unfold scatter_all. simpl. rewrite Nat.add_0_r. now destruct st.
Qed.

Lemma scatter_all_app (conv : R -> Z) (w h : nat) (a b : list (nat * nat))
  (st : nat * grid) :
  scatter_all gauss_variates conv m w h (a ++ b) st
  = scatter_all gauss_variates conv m w h b
      (scatter_all gauss_variates conv m w h a st).
Proof.
  unfold scatter_all. simpl fst. simpl snd.
  rewrite targets_of_app, fold_left_app, length_app. f_equal. lia.
Qed.

Lemma scatter_electron_one (w h x y : nat) (st : nat * grid) :
  scatter_electron gauss_variates m w h x y st
  = scatter_all gauss_variates py_int m w h [(x, y)] st.
Proof.
  unfold scatter_electron, scatter_all, targets_of, enumerate, deposit,
    electron_target, random_gauss.
  simpl. rewrite !Nat.add_0_r.
  replace (fst st + 1)%nat with (S (fst st)) by lia.
  replace (fst st + 2)%nat with (S (S (fst st))) by lia.
  replace 1.0 with 1 by lra.
  now destruct (in_grid w h _ _).
Qed.

Lemma scatter_loop (w h x y n : nat) (st : nat * grid) :
  for_range n (fun _ => scatter_electron gauss_variates m w h x y) st
  = scatter_all gauss_variates py_int m w h (repeat (x, y) n) st.
Proof.
  induction n as [| n IH].
  - unfold for_range. simpl. now rewrite scatter_all_nil.
  - rewrite fold_left_app_seq, IH, scatter_electron_one.
    rewrite <- scatter_all_app. f_equal.
    now rewrite <- repeat_cons.
Qed.

Lemma cascade_cell_scatter (pm : grid) (w h y x : nat) (st : nat * grid) :
  cascade_cell gauss_variates m pm w h y x st
  = scatter_all gauss_variates py_int m w h
      (repeat (x, y) (electron_count m (grid_get pm y x))) st.
Proof.
  unfold cascade_cell, electron_count.
  destruct (Rlt_dec 0 (grid_get pm y x)).
  - apply scatter_loop.
  - simpl. now rewrite scatter_all_nil.
Qed.

Lemma fold_scatter_all {A : Type} (w h : nat) (body : A -> nat * grid -> nat * grid)
  (f : A -> list (nat * nat)) (l : list A) (st : nat * grid) :
  (forall a s, body a s = scatter_all gauss_variates py_int m w h (f a) s) ->
  fold_left (fun acc a => body a acc) l st
  = scatter_all gauss_variates py_int m w h (flat_map f l) st.
Proof.
  intros Hbody. revert st. induction l as [| a l IH]; intros st; simpl.
  - now rewrite scatter_all_nil.
  - rewrite IH, Hbody. now rewrite scatter_all_app.
Qed.

(** The nested loops scatter the electrons of [electron_sources] in order. *)
Lemma cascade_as_trace (pm : grid) (k : nat) :
  simulate_electron_cascade gauss_variates m pm k
  = (fold_left (deposit (width pm) (height pm))
               (electron_targets gauss_variates py_int m pm k)
               (np_zeros_like pm),
     (k + 2 * length (electron_sources m pm))%nat).
Proof.
  unfold simulate_electron_cascade, for_range.
  rewrite (fold_scatter_all (width pm) (height pm) _
             (fun y => flat_map
                (fun x => repeat (x, y) (electron_count m (grid_get pm y x)))
                (seq 0 (width pm)))).
  - reflexivity.
  - intros y s. apply fold_scatter_all. intros x s'.
    apply cascade_cell_scatter.
Qed.

End Cascade.
(** ** Deposits *)

Lemma length_update_nth {A : Type} (n : nat) (f : A -> A) (l : list A) :
  length (update_nth n f l) = length l.
Proof.
  revert n. induction l as [| a l IH]; intros [| n]; simpl; auto.
Qed.

Lemma nth_update_nth_eq {A : Type} (n : nat) (f : A -> A) (l : list A) (d : A) :
  (n < length l)%nat -> nth n (update_nth n f l) d = f (nth n l d).
Proof.
  revert n. induction l as [| a l IH]; intros [| n] Hn; simpl in *;
    try lia; [reflexivity | apply IH; lia].
Qed.

Lemma nth_update_nth_neq {A : Type} (n i : nat) (f : A -> A) (l : list A)
  (d : A) :
  i <> n -> nth i (update_nth n f l) d = nth i l d.
Proof.
  revert n i. induction l as [| a l IH]; intros [| n] [| i] Hn; simpl;
    try reflexivity; try congruence.
  apply IH. congruence.
Qed.

Lemma Forall_update_nth {A : Type} (P : A -> Prop) (n : nat) (f : A -> A)
  (l : list A) :
  (forall a, P a -> P (f a)) -> Forall P l -> Forall P (update_nth n f l).
Proof.
  intros Hf. revert n. induction l as [| a l IH]; intros n Hl; [now destruct n |].
  inversion Hl; subst. destruct n; simpl; constructor; auto.
Qed.

Lemma well_shaped_row (w h : nat) (g : grid) (y : nat) :
  well_shaped w h g -> (y < h)%nat -> length (nth y g []) = w.
Proof.
  intros [Hh Hw] Hy. unfold rectangular in Hw.
  rewrite Forall_forall in Hw. apply Hw, nth_In. lia.
Qed.

Lemma well_shaped_add_at (w h : nat) (g : grid) (y x : nat) (v : R) :
  well_shaped w h g -> well_shaped w h (grid_add_at g y x v).
Proof.
  intros [Hh Hw]. unfold grid_add_at. split.
  - now rewrite length_update_nth.
  - apply Forall_update_nth; [| exact Hw].
    intros row Hrow. now rewrite length_update_nth.
Qed.

Lemma Rsum_update_nth (x : nat) (v : R) (row : list R) :
  (x < length row)%nat ->
  Rsum (update_nth x (fun c => c + v) row) = Rsum row + v.
Proof.
  revert x. induction row as [| a row IH]; intros [| x] Hx; simpl in *;
    try lia; [lra |].
  rewrite IH by lia. lra.
Qed.

Lemma np_sum_add_at (g : grid) (y x : nat) (v : R) :
  (y < length g)%nat -> (x < length (nth y g []))%nat ->
  np_sum (grid_add_at g y x v) = np_sum g + v.
Proof.
  unfold np_sum, grid_add_at. revert y.
  induction g as [| row g IH]; intros [| y] Hy Hx; simpl in *; try lia.
  - rewrite Rsum_update_nth by exact Hx. lra.
  - rewrite IH by (lia || exact Hx). lra.
Qed.

Lemma grid_get_add_at (g : grid) (y x y' x' : nat) (v : R) :
  (y' < length g)%nat -> (x' < length (nth y' g []))%nat ->
  grid_get (grid_add_at g y' x' v) y x
  = grid_get g y x + (if (x =? x')%nat && (y =? y')%nat then v else 0).
Proof.
  intros Hy Hx. unfold grid_get, grid_add_at.
  destruct (Nat.eqb_spec y y') as [-> | Ny].
  - rewrite nth_update_nth_eq by exact Hy.
    destruct (Nat.eqb_spec x x') as [-> | Nx]; simpl.
    + now rewrite nth_update_nth_eq.
    + rewrite nth_update_nth_neq by exact Nx. lra.
  - rewrite nth_update_nth_neq by exact Ny. rewrite andb_false_r. lra.
Qed.

Lemma in_grid_spec (w h : nat) (nx ny : Z) :
  in_grid w h nx ny = true <->
  (Z.to_nat nx < w)%nat /\ (Z.to_nat ny < h)%nat /\ (0 <= nx)%Z /\ (0 <= ny)%Z.
Proof.
  unfold in_grid. rewrite !andb_true_iff, !Z.leb_le, !Z.ltb_lt. lia.
Qed.

Lemma well_shaped_deposit (w h : nat) (g : grid) (t : Z * Z) :
  well_shaped w h g -> well_shaped w h (deposit w h g t).
Proof.
  intros Hg. unfold deposit. destruct (in_grid w h _ _); [| exact Hg].
  now apply well_shaped_add_at.
Qed.

Lemma np_sum_deposit (w h : nat) (g : grid) (t : Z * Z) :
  well_shaped w h g ->
  np_sum (deposit w h g t)
  = np_sum g + (if in_grid w h (fst t) (snd t) then 1 else 0).
Proof.
  intros Hg. unfold deposit.
  destruct (in_grid w h (fst t) (snd t)) eqn:Hin; [| lra].
  apply in_grid_spec in Hin. destruct Hin as (Hx & Hy & _).
  apply np_sum_add_at.
  - destruct Hg as [Hh _]. lia.
  - now rewrite (well_shaped_row w h).
Qed.

Lemma grid_get_deposit (w h : nat) (g : grid) (t : Z * Z) (y x : nat) :
  well_shaped w h g -> (y < h)%nat -> (x < w)%nat ->
  grid_get (deposit w h g t) y x
  = grid_get g y x
    + (if (fst t =? Z.of_nat x)%Z && (snd t =? Z.of_nat y)%Z then 1 else 0).
Proof.
  intros Hg Hy Hx. unfold deposit.
  destruct (in_grid w h (fst t) (snd t)) eqn:Hin.
  - apply in_grid_spec in Hin. destruct Hin as (Hnx & Hny & H0x & H0y).
    rewrite grid_get_add_at.
    + replace ((x =? Z.to_nat (fst t))%nat && (y =? Z.to_nat (snd t))%nat)
        with ((fst t =? Z.of_nat x)%Z && (snd t =? Z.of_nat y)%Z);
        [reflexivity |].
      f_equal.
      * destruct (Z.eqb_spec (fst t) (Z.of_nat x)),
          (Nat.eqb_spec x (Z.to_nat (fst t))); try reflexivity; lia.
      * destruct (Z.eqb_spec (snd t) (Z.of_nat y)),
          (Nat.eqb_spec y (Z.to_nat (snd t))); try reflexivity; lia.
    + destruct Hg as [Hh _]. lia.
    + now rewrite (well_shaped_row w h).
  - replace ((fst t =? Z.of_nat x)%Z && (snd t =? Z.of_nat y)%Z) with false;
      [lra |].
    symmetry. apply andb_false_iff.
    destruct (Z.eqb_spec (fst t) (Z.of_nat x)) as [Ex |]; [| now left].
    destruct (Z.eqb_spec (snd t) (Z.of_nat y)) as [Ey |]; [| now right].
    exfalso. assert (Htrue : in_grid w h (fst t) (snd t) = true)
      by (apply in_grid_spec; lia).
    congruence.
Qed.

Lemma np_sum_deposits (w h : nat) (ts : list (Z * Z)) (g : grid) :
  well_shaped w h g ->
  np_sum (fold_left (deposit w h) ts g)
  = np_sum g
    + INR (length (filter (fun t => in_grid w h (fst t) (snd t)) ts)).
Proof.
  revert g. induction ts as [| t ts IH]; intros g Hg; simpl; [lra |].
  rewrite IH by now apply well_shaped_deposit.
  rewrite np_sum_deposit by exact Hg.
  destruct (in_grid w h (fst t) (snd t)); [| lra].
  cbn [length]. rewrite S_INR. lra.
Qed.

Lemma grid_get_deposits (w h : nat) (ts : list (Z * Z)) (g : grid) (y x : nat) :
  well_shaped w h g -> (y < h)%nat -> (x < w)%nat ->
  grid_get (fold_left (deposit w h) ts g) y x
  = grid_get g y x + INR (hits ts x y).
Proof.
  intros Hg Hy Hx. revert g Hg. unfold hits.
  induction ts as [| t ts IH]; intros g Hg; simpl; [lra |].
  rewrite IH by now apply well_shaped_deposit.
  rewrite (grid_get_deposit w h) by assumption.
  destruct ((fst t =? Z.of_nat x)%Z && (snd t =? Z.of_nat y)%Z); [| lra].
  cbn [length]. rewrite S_INR. lra.
Qed.

Lemma well_shaped_zeros_like (pm : grid) :
  rectangular (width pm) pm ->
  well_shaped (width pm) (height pm) (np_zeros_like pm).
Proof.
  intros Hr. unfold well_shaped, np_zeros_like, grid_map, rectangular.
  split; [apply length_map |].
  apply Forall_map. eapply Forall_impl; [| exact Hr].
  intros row Hrow. now rewrite length_map.
Qed.

Lemma Rsum_zero (l : list R) : Forall (fun v => v = 0) l -> Rsum l = 0.
Proof.
  induction 1 as [| v l Hv _ IH]; simpl; [reflexivity | lra].
Qed.

Lemma np_sum_zeros_like (pm : grid) : np_sum (np_zeros_like pm) = 0.
Proof.
  unfold np_sum, np_zeros_like, grid_map. apply Rsum_zero.
  rewrite map_map. apply Forall_map, Forall_forall. intros row _.
  apply Rsum_zero, Forall_map, Forall_forall. reflexivity.
Qed.

Lemma grid_get_zeros_like (pm : grid) (y x : nat) :
  grid_get (np_zeros_like pm) y x = 0.
Proof.
  unfold grid_get, np_zeros_like, grid_map.
  destruct (Nat.lt_ge_cases y (length (map (map (fun _ : R => 0)) pm)))
    as [Hy | Hy].
  - rewrite (nth_indep _ [] (map (fun _ : R => 0) [])) by exact Hy.
    rewrite map_nth.
    destruct (Nat.lt_ge_cases x (length (map (fun _ : R => 0) (nth y pm []))))
      as [Hx | Hx].
    + exact (map_nth (fun _ : R => 0) (nth y pm []) 0 x).
    + now apply nth_overflow.
  - rewrite (nth_overflow _ [] Hy). now destruct x.
Qed.
(** ** Electron sources *)

Lemma length_filter_flat_map {A B : Type} (p : B -> bool) (f : A -> list B)
  (l : list A) :
  length (filter p (flat_map f l))
  = list_sum (map (fun a => length (filter p (f a))) l).
Proof.
  induction l as [| a l IH]; simpl; [reflexivity |].
  now rewrite filter_app, length_app, IH.
Qed.

Lemma length_filter_repeat {A : Type} (p : A -> bool) (a : A) (n : nat) :
  length (filter p (repeat a n)) = if p a then n else 0%nat.
Proof.
  induction n as [| n IH]; simpl; [now destruct (p a) |].
  destruct (p a); simpl; [now rewrite IH | exact IH].
Qed.

Lemma list_sum_zero {A : Type} (c : A -> nat) (l : list A) :
  (forall a, In a l -> c a = 0%nat) -> list_sum (map c l) = 0%nat.
Proof.
  induction l as [| a l IH]; intros Hc; simpl; [reflexivity |].
  rewrite (Hc a) by now left. apply IH. intros b Hb. apply Hc. now right.
Qed.

(** A sum over [range(n)] with one non-zero term. *)
Lemma list_sum_single (c : nat -> nat) (i0 n : nat) :
  (i0 < n)%nat -> (forall i, i <> i0 -> c i = 0%nat) ->
  list_sum (map c (seq 0 n)) = c i0.
Proof.
  intros Hi Hc.
  replace n with (i0 + S (n - S i0))%nat by lia.
  rewrite seq_app, map_app, list_sum_app. simpl.
  rewrite !list_sum_zero; [lia | |].
  - intros a Ha. apply in_seq in Ha. apply Hc. lia.
  - intros a Ha. apply in_seq in Ha. apply Hc. lia.
Qed.

Lemma double_sum_single (c : nat -> nat -> nat) (y0 x0 h w : nat) :
  (y0 < h)%nat -> (x0 < w)%nat ->
  (forall y x, (y, x) <> (y0, x0) -> c y x = 0%nat) ->
  list_sum (map (fun y => list_sum (map (c y) (seq 0 w))) (seq 0 h)) = c y0 x0.
Proof.
  intros Hy Hx Hc.
  rewrite (list_sum_single _ y0 h Hy).
  - apply list_sum_single; [exact Hx |].
    intros x Nx. apply Hc. congruence.
  - intros y Ny. apply list_sum_zero. intros x _. apply Hc. congruence.
Qed.

Section Sources.

Variable m : EUVExposureModel.

Lemma sources_at_cell (pm : grid) (y x : nat) :
  (y < height pm)%nat -> (x < width pm)%nat ->
  sources_at (electron_sources m pm) x y = electron_count m (grid_get pm y x).
Proof.
  intros Hy Hx. unfold sources_at, electron_sources.
  rewrite length_filter_flat_map.
  set (p := fun s : nat * nat => (fst s =? x)%nat && (snd s =? y)%nat).
  set (c := fun y' x' : nat =>
              length (filter p (repeat (x', y')
                                  (electron_count m (grid_get pm y' x'))))).
  rewrite (map_ext _ (fun y' => list_sum (map (c y') (seq 0 (width pm)))))
    by (intros y'; apply length_filter_flat_map).
  rewrite (double_sum_single c y x); try assumption.
  - unfold c. rewrite length_filter_repeat. unfold p. simpl.
    now rewrite !Nat.eqb_refl.
  - intros y' x' Hne. unfold c. rewrite length_filter_repeat. unfold p. simpl.
    destruct (Nat.eqb_spec x' x), (Nat.eqb_spec y' y); simpl;
      try reflexivity. congruence.
Qed.

Lemma length_electron_sources (pm : grid) :
  length (electron_sources m pm)
  = list_sum (map (fun y =>
                list_sum (map (fun x => electron_count m (grid_get pm y x))
                              (seq 0 (width pm))))
                  (seq 0 (height pm))).
Proof.
  unfold electron_sources. rewrite length_flat_map.
  apply f_equal, map_ext. intros y. rewrite length_flat_map.
  apply f_equal, map_ext. intros x. apply repeat_length.
Qed.

Lemma electron_count_nonpositive (p : R) : p <= 0 -> electron_count m p = 0%nat.
Proof.
  intros Hp. unfold electron_count. destruct (Rlt_dec 0 p); [lra | reflexivity].
Qed.

Lemma electron_count_floor (p : R) :
  0 < p -> 0 <= secondary_electron_yield (resist m) ->
  electron_count m p
  = Z.to_nat (Zfloor (p * secondary_electron_yield (resist m))).
Proof.
  intros Hp Hy. unfold electron_count.
  destruct (Rlt_dec 0 p); [| lra].
  rewrite py_int_floor; [reflexivity | nra].
Qed.

Lemma electron_count_unit :
  secondary_electron_yield (resist m) = 3.2 -> electron_count m 1 = 3%nat.
Proof.
  intros Hy. unfold electron_count. rewrite Hy.
  destruct (Rlt_dec 0 1); [| lra].
  rewrite (py_int_nonneg _ 3); [reflexivity | lra | simpl; lra].
Qed.

(** A photon map with one positive cell, of value 1, and yield 3.2:
    three electrons. *)
Lemma single_cell_sources (pm : grid) (y0 x0 : nat) :
  secondary_electron_yield (resist m) = 3.2 ->
  (y0 < height pm)%nat -> (x0 < width pm)%nat ->
  grid_get pm y0 x0 = 1 ->
  (forall y x, (y, x) <> (y0, x0) -> grid_get pm y x <= 0) ->
  length (electron_sources m pm) = 3%nat.
Proof.
  intros Hyield Hy Hx Hone Hother.
  rewrite length_electron_sources.
  rewrite (double_sum_single
             (fun y x => electron_count m (grid_get pm y x)) y0 x0);
    try assumption.
  - rewrite Hone. now apply electron_count_unit.
  - intros y x Hne. apply electron_count_nonpositive. now apply Hother.
Qed.

End Sources.

Lemma length_targets_of (gv : nat -> R) (conv : R -> Z) (m : EUVExposureModel)
  (k : nat) (srcs : list (nat * nat)) :
  length (targets_of gv conv m k srcs) = length srcs.
Proof.
  unfold targets_of, enumerate.
  rewrite length_map, length_combine, length_seq. lia.
Qed.

Lemma nth_error_targets_of (gv : nat -> R) (conv : R -> Z)
  (m : EUVExposureModel) (srcs : list (nat * nat)) (k n : nat)
  (src : nat * nat) :
  nth_error srcs n = Some src ->
  nth_error (targets_of gv conv m k srcs) n
  = Some (electron_target gv conv m k n src).
Proof.
  revert k n. induction srcs as [| a srcs IH]; intros k n Hn.
  - now destruct n.
  - change (a :: srcs) with ([a] ++ srcs). rewrite targets_of_app.
    destruct n as [| n]; simpl in Hn.
    + injection Hn as ->. reflexivity.
    + simpl. rewrite (IH _ _ Hn).
      replace (S n) with (n + 1)%nat by lia.
      now rewrite electron_target_shift.
Qed.

Lemma filter_all {A : Type} (p : A -> bool) (l : list A) :
  Forall (fun a => p a = true) l -> filter p l = l.
Proof.
  induction 1 as [| a l Ha _ IH]; simpl; [reflexivity |].
  now rewrite Ha, IH.
Qed.

(** ** Energy deposited by the cascade *)

Lemma np_sum_cascade (gv : nat -> R) (m : EUVExposureModel) (pm : grid) (k : nat) :
  rectangular (width pm) pm ->
  np_sum (fst (simulate_electron_cascade gv m pm k))
  = INR (length (filter (fun t => in_grid (width pm) (height pm) (fst t) (snd t))
                        (electron_targets gv py_int m pm k))).
Proof.
  intros Hr. rewrite cascade_as_trace. cbn [fst].
  rewrite np_sum_deposits by now apply well_shaped_zeros_like.
  rewrite np_sum_zeros_like. lra.
Qed.

Lemma single_cell_total (gv : nat -> R) (m : EUVExposureModel) (pm : grid)
  (k y0 x0 : nat) :
  secondary_electron_yield (resist m) = 3.2 ->
  rectangular (width pm) pm ->
  (y0 < height pm)%nat -> (x0 < width pm)%nat ->
  grid_get pm y0 x0 = 1 ->
  (forall y x, (y, x) <> (y0, x0) -> grid_get pm y x <= 0) ->
  Forall (fun t => in_grid (width pm) (height pm) (fst t) (snd t) = true)
         (electron_targets gv py_int m pm k) ->
  np_sum (fst (simulate_electron_cascade gv m pm k)) = 3.
Proof.
  intros Hyield Hr Hy Hx Hone Hother Hin.
  rewrite np_sum_cascade by exact Hr.
  rewrite filter_all by exact Hin.
  unfold electron_targets. rewrite length_targets_of.
  rewrite (single_cell_sources m pm y0 x0) by assumption.
  simpl. lra.
Qed.

(** C6.  For a photon map whose only positive cell has the value 1.0 and a
    secondary-electron yield of 3.2, whenever no electron lands outside the
    grid the output grid sums to exactly 3 (the three electrons of
    [int(3.2)]): the sum deviates from 3.2 by 6.25%, it is not within 6% of
    3.2, and the repository's own bound [3.0 < count] fails. *)
Theorem single_cell_cascade_total (gv : nat -> R) (m : EUVExposureModel)
  (pm : grid) (k y0 x0 : nat) :
  secondary_electron_yield (resist m) = 3.2 ->
  rectangular (width pm) pm ->
  (y0 < height pm)%nat -> (x0 < width pm)%nat ->
  grid_get pm y0 x0 = 1 ->
  (forall y x, (y, x) <> (y0, x0) -> grid_get pm y x <= 0) ->
  Forall (fun t => in_grid (width pm) (height pm) (fst t) (snd t) = true)
         (electron_targets gv py_int m pm k) ->
  let total := np_sum (fst (simulate_electron_cascade gv m pm k)) in
  total = 3 /\
  ~ (Rabs (total - 3.2) <= 0.06 * 3.2) /\
  ~ (3.0 < total < 3.4).
Proof.
  intros Hyield Hr Hy Hx Hone Hother Hin total.
  assert (Ht : total = 3) by now apply (single_cell_total gv m pm k y0 x0).
  rewrite Ht. split; [reflexivity |]. split; [| lra].
  rewrite Rabs_left by lra. lra.
Qed.

Lemma default_sigma :
  electron_scattering_range_nm (resist (init None None)) / nm_per_pixel = 9.6.
Proof. unfold nm_per_pixel. simpl. lra. Qed.

Lemma center_cell_sources :
  electron_sources (init None None) center_cell = [(1, 1); (1, 1); (1, 1)]%nat.
Proof.
  unfold electron_sources, center_cell. cbn [height width length hd seq flat_map].
  unfold grid_get. cbn [nth].
  rewrite electron_count_unit by reflexivity.
  rewrite !electron_count_nonpositive by lra.
  reflexivity.
Qed.

Lemma py_int_eighth : py_int (0 + 1 / 8 * 9.6) = 1%Z.
Proof. apply py_int_nonneg; simpl; lra. Qed.

Lemma center_cell_targets (k : nat) :
  electron_targets (fun _ => 1 / 8) py_int (init None None) center_cell k
  = [(2, 2); (2, 2); (2, 2)]%Z.
Proof.
  unfold electron_targets. rewrite center_cell_sources.
  unfold targets_of, enumerate, electron_target.
  rewrite default_sigma. cbn [length seq combine map fst snd].
  rewrite py_int_eighth. reflexivity.
Qed.

Lemma single_cell_cascade_total_witness :
  secondary_electron_yield (resist (init None None)) = 3.2 /\
  np_sum (fst (simulate_electron_cascade (fun _ => 1 / 8) (init None None)
                 center_cell 0)) = 3.
Proof.
  split; [reflexivity |].
  apply (single_cell_cascade_total (fun _ => 1 / 8) (init None None)
           center_cell 0 1 1).
  - reflexivity.
  - unfold center_cell. repeat constructor.
  - unfold height, center_cell. simpl. lia.
  - unfold width, center_cell. simpl. lia.
  - reflexivity.
  - intros y x Hne. unfold grid_get, center_cell.
    destruct y as [| [| [| y]]]; destruct x as [| [| [| x]]]; simpl;
      try lra; try (destruct x; lra); try (destruct y; simpl; lra).
    now contradiction Hne.
  - rewrite center_cell_targets. repeat constructor.
Defined.


Lemma well_shaped_deposits (w h : nat) (ts : list (Z * Z)) (g : grid) :
  well_shaped w h g -> well_shaped w h (fold_left (deposit w h) ts g).
Proof.
  revert g. induction ts as [| t ts IH]; intros g Hg; simpl; [exact Hg |].
  now apply IH, well_shaped_deposit.
Qed.

Lemma well_shaped_dimensions (w h : nat) (g pm : grid) :
  w = width pm -> h = height pm ->
  well_shaped w h g -> height g = height pm /\ width g = width pm.
Proof.
  intros -> -> [Hh Hw]. split; [exact Hh |].
  unfold width, height in *. destruct g as [| row g]; simpl in *.
  - destruct pm; [reflexivity | discriminate].
  - now inversion Hw.
Qed.

Lemma cascade_shape (gv : nat -> R) (m : EUVExposureModel) (pm : grid) (k : nat) :
  rectangular (width pm) pm ->
  well_shaped (width pm) (height pm) (fst (simulate_electron_cascade gv m pm k)).
Proof.
  intros Hr. rewrite cascade_as_trace. cbn [fst].
  now apply well_shaped_deposits, well_shaped_zeros_like.
Qed.

Lemma grid_get_cascade (gv : nat -> R) (m : EUVExposureModel) (pm : grid)
  (k y x : nat) :
  rectangular (width pm) pm -> (y < height pm)%nat -> (x < width pm)%nat ->
  grid_get (fst (simulate_electron_cascade gv m pm k)) y x
  = INR (hits (electron_targets gv py_int m pm k) x y).
Proof.
  intros Hr Hy Hx. rewrite cascade_as_trace. cbn [fst].
  rewrite grid_get_deposits by (try apply well_shaped_zeros_like; assumption).
  rewrite grid_get_zeros_like. lra.
Qed.

(** C7 (as the code behaves).  On a rectangular photon map the cascade
    generates, at each cell of positive value p, max(0, int(p * yield))
    electrons, which is floor(p * yield) for a non-negative yield, and none
    at the other cells; the n-th electron takes the variates 2n and 2n+1
    after the start position, scales each by the scattering range in cells
    (mean 0), truncates each product toward zero (Python [int], not rounding
    to the nearest integer) and adds it to its source column and row; every
    output cell holds the number of electrons whose target it is, so an
    electron adds exactly one unit at its target inside the grid and nothing
    when the target is outside. *)
Theorem electron_cascade_truncates (gv : nat -> R) (m : EUVExposureModel)
  (pm : grid) (k : nat) :
  rectangular (width pm) pm ->
  let out := fst (simulate_electron_cascade gv m pm k) in
  let sources := electron_sources m pm in
  let targets := electron_targets gv py_int m pm k in
  let yield := secondary_electron_yield (resist m) in
  let sigma := electron_scattering_range_nm (resist m) / nm_per_pixel in
  (forall y x, (y < height pm)%nat -> (x < width pm)%nat ->
     sources_at sources x y
     = if Rlt_dec 0 (grid_get pm y x)
       then Z.to_nat (py_int (grid_get pm y x * yield)) else 0%nat) /\
  (0 <= yield ->
   forall y x, (y < height pm)%nat -> (x < width pm)%nat ->
     0 < grid_get pm y x ->
     sources_at sources x y = Z.to_nat (Zfloor (grid_get pm y x * yield))) /\
  snd (simulate_electron_cascade gv m pm k) = (k + 2 * length sources)%nat /\
  (forall n src, nth_error sources n = Some src ->
     nth_error targets n
     = Some ((Z.of_nat (fst src) + py_int (0 + gv (k + 2 * n)%nat * sigma))%Z,
             (Z.of_nat (snd src)
              + py_int (0 + gv (k + 2 * n + 1)%nat * sigma))%Z)) /\
  (forall y x, (y < height pm)%nat -> (x < width pm)%nat ->
     grid_get out y x = INR (hits targets x y)) /\
  height out = height pm /\ width out = width pm.
Proof.
  intros Hr out sources targets yield sigma.
  split; [| split; [| split; [| split; [| split]]]].
  - intros y x Hy Hx. unfold sources. now rewrite sources_at_cell.
  - intros Hyield y x Hy Hx Hp. unfold sources.
    rewrite sources_at_cell by assumption.
    now apply electron_count_floor.
  - unfold sources. now rewrite cascade_as_trace.
  - intros n src Hn. unfold targets, electron_targets. unfold sources in Hn.
    now rewrite (nth_error_targets_of gv py_int m _ k n src Hn).
  - intros y x Hy Hx. now apply grid_get_cascade.
  - apply (well_shaped_dimensions (width pm) (height pm)); try reflexivity.
    now apply cascade_shape.
Qed.

Lemma electron_cascade_truncates_witness :
  rectangular (width center_cell) center_cell /\
  snd (simulate_electron_cascade (fun _ => 1 / 8) (init None None) center_cell 0)
  = (0 + 2 * length (electron_sources (init None None) center_cell))%nat.
Proof.
  assert (Hr : rectangular (width center_cell) center_cell)
    by (unfold center_cell; repeat constructor).
  split; [exact Hr |].
  apply (electron_cascade_truncates (fun _ => 1 / 8) (init None None)
           center_cell 0 Hr).
Defined.

Lemma corner_cell_sources :
  electron_sources (init None None) corner_cell = [(0, 0); (0, 0); (0, 0)]%nat.
Proof.
  unfold electron_sources, corner_cell. cbn [height width length hd seq flat_map].
  unfold grid_get. cbn [nth].
  rewrite electron_count_unit by reflexivity.
  rewrite !electron_count_nonpositive by lra.
  reflexivity.
Qed.

Lemma py_int_sixteenth : py_int (0 + 1 / 16 * 9.6) = 0%Z.
Proof. apply py_int_nonneg; simpl; lra. Qed.

Lemma round_nearest_sixteenth : round_nearest (0 + 1 / 16 * 9.6) = 1%Z.
Proof. unfold round_nearest. apply Zfloor_eq. simpl. lra. Qed.

Lemma corner_cell_targets_truncated :
  electron_targets (fun _ => 1 / 16) py_int (init None None) corner_cell 0
  = [(0, 0); (0, 0); (0, 0)]%Z.
Proof.
  unfold electron_targets. rewrite corner_cell_sources.
  unfold targets_of, enumerate, electron_target.
  rewrite default_sigma. cbn [length seq combine map fst snd].
  rewrite py_int_sixteenth. reflexivity.
Qed.

Lemma corner_cell_targets_rounded :
  electron_targets (fun _ => 1 / 16) round_nearest (init None None) corner_cell 0
  = [(1, 1); (1, 1); (1, 1)]%Z.
Proof.
  unfold electron_targets. rewrite corner_cell_sources.
  unfold targets_of, enumerate, electron_target.
  rewrite default_sigma. cbn [length seq combine map fst snd].
  rewrite round_nearest_sixteenth. reflexivity.
Qed.

(** C7 (as stated) fails on the rounding: with the default resist (yield
    3.2, scattering range 4.8 nm, that is 9.6 cells), the 2x2 photon map
    whose corner (0, 0) holds 1.0, and every variate equal to 1/16, each of
    the three displacements is 0.6 cells; the code truncates it to 0 and
    deposits the three units at (0, 0), where rounding to the nearest
    integer moves them to (1, 1). *)
Lemma cascade_rounding_counterexample :
  grid_get (fst (simulate_electron_cascade (fun _ => 1 / 16) (init None None)
                   corner_cell 0)) 0 0 = 3 /\
  grid_get (spec_electron_cascade (fun _ => 1 / 16) (init None None)
              corner_cell 0) 0 0 = 0 /\
  fst (simulate_electron_cascade (fun _ => 1 / 16) (init None None)
         corner_cell 0)
  <> spec_electron_cascade (fun _ => 1 / 16) (init None None) corner_cell 0.
Proof.
  assert (Hr : rectangular (width corner_cell) corner_cell)
    by (unfold corner_cell; repeat constructor).
  assert (Hh : (0 < height corner_cell)%nat)
    by (unfold height, corner_cell; simpl; lia).
  assert (Hw : (0 < width corner_cell)%nat)
    by (unfold width, corner_cell; simpl; lia).
  assert (Hcode : grid_get (fst (simulate_electron_cascade (fun _ => 1 / 16)
                                   (init None None) corner_cell 0)) 0 0 = 3).
  { rewrite grid_get_cascade by assumption.
    rewrite corner_cell_targets_truncated. simpl. lra. }
  assert (Hspec : grid_get (spec_electron_cascade (fun _ => 1 / 16)
                              (init None None) corner_cell 0) 0 0 = 0).
  { unfold spec_electron_cascade.
    rewrite grid_get_deposits
      by (try apply well_shaped_zeros_like; assumption).
    rewrite grid_get_zeros_like, corner_cell_targets_rounded. simpl. lra. }
  split; [exact Hcode |]. split; [exact Hspec |].
  intros Heq. rewrite Heq, Hspec in Hcode. lra.
Qed.


(** ** Shapes along the pipeline *)

Lemma for_range_invariant {S : Type} (P : S -> Prop) (n : nat)
  (body : nat -> S -> S) (s : S) :
  (forall i s', P s' -> P (body i s')) -> P s -> P (for_range n body s).
Proof.
  intros Hbody. unfold for_range. generalize (seq 0 n). intros l. revert s.
  induction l as [| i l IH]; intros s Hs; simpl; [exact Hs |].
  now apply IH, Hbody.
Qed.

Lemma well_shaped_grid_map (w h : nat) (f : R -> R) (g : grid) :
  well_shaped w h g -> well_shaped w h (grid_map f g).
Proof.
  intros [Hh Hw]. unfold well_shaped, grid_map, rectangular in *. split.
  - now rewrite length_map.
  - apply Forall_map. eapply Forall_impl; [| exact Hw].
    intros row Hrow. now rewrite length_map.
Qed.

Lemma well_shaped_np_zeros (w h : nat) : well_shaped w h (np_zeros h w).
Proof.
  unfold well_shaped, np_zeros, rectangular. split; [apply repeat_length |].
  apply Forall_forall. intros row Hrow. apply repeat_spec in Hrow. subst row.
  apply repeat_length.
Qed.

Lemma well_shaped_matrix_set (w h : nat) (g : grid) (y x : nat) (v : R) :
  well_shaped w h g -> well_shaped w h (matrix_set g y x v).
Proof.
  intros [Hh Hw]. unfold matrix_set. split.
  - now rewrite length_update_nth.
  - apply Forall_update_nth; [| exact Hw].
    intros row Hrow. now rewrite length_update_nth.
Qed.

Lemma well_shaped_size (w h : nat) (g : grid) :
  well_shaped w h g -> grid_size g = (h * w)%nat.
Proof.
  intros [Hh Hw]. unfold grid_size, height, width. rewrite Hh.
  destruct g as [| row g]; simpl in *.
  - now subst h.
  - inversion Hw; subst. reflexivity.
Qed.

Lemma simulate_chemical_reactions_shape (m : EUVExposureModel)
  (emap acid : grid) :
  simulate_chemical_reactions m emap = Returned acid ->
  well_shaped (width emap) (height emap) acid.
Proof.
  unfold simulate_chemical_reactions.
  destruct (String.eqb _ "CAR"); [| destruct (String.eqb _ "MeOx")];
    intros H; injection H as <-.
  - apply for_range_invariant; [| apply well_shaped_np_zeros].
    intros y s Hs. apply for_range_invariant; [| exact Hs].
    intros x s' Hs'. destruct (Rlt_dec 0 _); [| exact Hs'].
    now apply well_shaped_matrix_set.
  - apply for_range_invariant; [| apply well_shaped_np_zeros].
    intros y s Hs. apply for_range_invariant; [| exact Hs].
    intros x s' Hs'. destruct (Rlt_dec 0 _); [| exact Hs'].
    now apply well_shaped_matrix_set.
  - apply well_shaped_np_zeros.
Qed.

Lemma metrics_returns (pattern : grid) (target_cd_nm : R) :
  grid_size pattern <> 0%nat ->
  exists sm, calculate_stochastic_metrics pattern target_cd_nm = Returned sm.
Proof.
  intros Hs. unfold calculate_stochastic_metrics.
  destruct (Req_dec_T _ 0) as [Ea | Ea]; [| eauto].
  now apply metrics_area_zero in Ea.
Qed.

Section Run.

Variable gaussian_filter : grid -> R -> grid.
Variable gauss_variates : nat -> R.

Lemma run_full_simulation_stages (m : EUVExposureModel) (target : grid)
  (cd t : R) (k : nat) (res : simulation_results)
  (st : EUVExposureModel * nat) :
  run_full_simulation gaussian_filter gauss_variates m target cd t k
  = Returned (res, st) ->
  rate_map res = calculate_development_rate m (diffused_acid res) /\
  final_pattern res = simulate_development (rate_map res) t.
Proof.
  unfold run_full_simulation. cbv zeta.
  destruct (simulate_chemical_reactions _ _) as [acid | e]; simpl;
    [| discriminate].
  destruct (calculate_stochastic_metrics _ _) as [sm | e]; simpl;
    [| discriminate].
  intros H. injection H as <- _. simpl.
  split; [| reflexivity].
  now rewrite !calculate_development_rate_pointwise.
Qed.

Lemma run_full_simulation_returns (m : EUVExposureModel) (target : grid)
  (cd t : R) (k : nat) :
  shape_preserving gaussian_filter ->
  grid_size target <> 0%nat ->
  exists res st,
    run_full_simulation gaussian_filter gauss_variates m target cd t k
    = Returned (res, st).
Proof.
  intros Hgf Hsize. unfold run_full_simulation. cbv zeta.
  set (pm := grid_mul_scalar (grid_mul_scalar _ _) _).
  assert (Hpm : well_shaped (width target) (height target) pm).
  { unfold pm, grid_mul_scalar. now do 2 apply well_shaped_grid_map. }
  destruct (well_shaped_dimensions _ _ pm target eq_refl eq_refl Hpm)
    as [Hh Hw].
  assert (Hr : rectangular (width pm) pm) by (rewrite Hw; apply Hpm).
  pose proof (cascade_shape gauss_variates
                (snd (calculate_photon_statistics m
                        (np_sum target * nm_per_pixel ^ 2 * 1e-6)))
                pm k Hr) as He.
  rewrite Hh, Hw in He.
  set (emap := fst (simulate_electron_cascade _ _ pm k)) in *.
  destruct (well_shaped_dimensions _ _ emap target eq_refl eq_refl He)
    as [Hhe Hwe].
  destruct (simulate_chemical_reactions _ emap) as [acid | e] eqn:Hchem.
  2:{ destruct (simulate_chemical_reactions_returns
                  (snd (calculate_photon_statistics m
                          (np_sum target * nm_per_pixel ^ 2 * 1e-6))) emap)
        as [a Ha]. congruence. }
  apply simulate_chemical_reactions_shape in Hchem.
  rewrite Hhe, Hwe in Hchem.
  destruct (well_shaped_dimensions _ _ acid target eq_refl eq_refl Hchem)
    as [Hha Hwa].
  simpl py_bind.
  set (final := simulate_development _ t).
  assert (Hfinal : well_shaped (width target) (height target) final).
  { unfold final. rewrite simulate_development_pointwise,
      calculate_development_rate_pointwise.
    do 2 apply well_shaped_grid_map.
    unfold simulate_acid_diffusion. rewrite <- Hha, <- Hwa. apply Hgf. }
  destruct (metrics_returns final cd) as [sm Hsm].
  { rewrite (well_shaped_size _ _ _ Hfinal). exact Hsize. }
  rewrite Hsm. simpl. eauto.
Qed.

End Run.

Lemma development_rate_below_base (m : EUVExposureModel) (acid : grid) :
  development_rate_base_nm_s (resist m) = 0.5 ->
  development_contrast (resist m) = 4.5 ->
  all_cells (fun r => 0 < r < 0.5) (calculate_development_rate m acid).
Proof.
  intros Hbase Hcontrast. rewrite calculate_development_rate_pointwise.
  apply all_cells_grid_map with (P := fun _ => True);
    [| now apply all_cells_trivial].
  intros c _. unfold rate_of_acid. rewrite Hbase.
  pose proof (exp_pos (- development_contrast (resist m) * (c - 0.5))) as He.
  set (e := exp _) in *.
  assert (Hinv : 0 < / (1 + e) < 1).
  { split; [apply Rinv_0_lt_compat; lra |].
    rewrite <- Rinv_1 at 2. apply Rinv_lt_contravar; lra. }
  unfold Rdiv. split; nra.
Qed.

Lemma slow_development_keeps_resist (rate : grid) :
  all_cells (fun r => 0 < r < 0.5) rate ->
  all_cells (fun v => v = 1) (simulate_development rate 30.0).
Proof.
  intros Hrate. rewrite simulate_development_pointwise.
  eapply all_cells_grid_map; [| exact Hrate].
  intros r Hr. cbv beta in Hr. unfold remains.
  destruct (Rlt_dec 0 (40 - r * 30.0)); [reflexivity | lra].
Qed.

Lemma zero_filter_shape : shape_preserving zero_filter.
Proof. intros g sigma. apply well_shaped_np_zeros. Qed.

(** ** The dose-focus sweep *)

Lemma length_np_linspace (a b : R) (n : nat) : length (np_linspace a b n) = n.
Proof.
  destruct n as [| [| n]]; simpl; try reflexivity.
  rewrite length_app, length_map, length_seq. simpl. lia.
Qed.

Lemma for_each_M_ext {A S : Type} (l : list A) (b1 b2 : A -> S -> py_result S)
  (s : S) :
  (forall a s', b1 a s' = b2 a s') -> for_each_M l b1 s = for_each_M l b2 s.
Proof.
  intros Hb. revert s. induction l as [| a l IH]; intros s; simpl;
    [reflexivity |].
  rewrite Hb. destruct (b2 a s) as [s' | e]; simpl; [apply IH | reflexivity].
Qed.

Lemma for_each_M_returns {A S : Type} (l : list A) (body : A -> S -> py_result S)
  (s : S) :
  (forall a s', exists s'', body a s' = Returned s'') ->
  exists s', for_each_M l body s = Returned s'.
Proof.
  intros Hb. revert s. induction l as [| a l IH]; intros s; simpl; [eauto |].
  destruct (Hb a s) as [s'' ->]. simpl. apply IH.
Qed.

Section Sweep.

Variable gaussian_filter : grid -> R -> grid.
Variable gauss_variates : nat -> R.

(** The focus value of a sweep point does not reach the simulation. *)
Lemma sweep_point_ignores_focus (target : grid) (cd : R) (i j : nat)
  (dose focus1 focus2 : R) (st : sweep_state) :
  sweep_point gaussian_filter gauss_variates target cd i dose j focus1 st
  = sweep_point gaussian_filter gauss_variates target cd i dose j focus2 st.
Proof. reflexivity. Qed.

Lemma focus_loop_ignores_values (target : grid) (cd : R) (i : nat) (dose : R)
  (l1 l2 : list R) (s : nat) (st : sweep_state) :
  length l1 = length l2 ->
  for_each_M (combine (seq s (length l1)) l1)
    (fun '(j, focus) =>
       sweep_point gaussian_filter gauss_variates target cd i dose j focus) st
  = for_each_M (combine (seq s (length l2)) l2)
      (fun '(j, focus) =>
         sweep_point gaussian_filter gauss_variates target cd i dose j focus)
      st.
Proof.
  revert l2 s st. induction l1 as [| f1 l1 IH]; intros [| f2 l2] s st Hlen;
    simpl in Hlen; try discriminate; [reflexivity |].
  simpl. rewrite (sweep_point_ignores_focus target cd i s dose f1 f2 st).
  destruct (sweep_point _ _ target cd i dose s f2 st) as [st' | e]; simpl;
    [| reflexivity].
  apply IH. congruence.
Qed.

Lemma sweep_ignores_focus_values (target : grid) (cd : R)
  (doses l1 l2 : list R) (st : sweep_state) :
  length l1 = length l2 ->
  sweep gaussian_filter gauss_variates target cd doses l1 st
  = sweep gaussian_filter gauss_variates target cd doses l2 st.
Proof.
  intros Hlen. unfold sweep. apply for_each_M_ext.
  intros [i dose] st'. unfold enumerate.
  now apply focus_loop_ignores_values.
Qed.

Lemma sweep_point_returns (target : grid) (cd : R) (i j : nat)
  (dose focus : R) (st : sweep_state) :
  shape_preserving gaussian_filter -> grid_size target <> 0%nat ->
  exists st',
    sweep_point gaussian_filter gauss_variates target cd i dose j focus st
    = Returned st'.
Proof.
  intros Hgf Hsize. destruct st as [[[m k] cds] ls]. unfold sweep_point.
  destruct (run_full_simulation_returns gaussian_filter gauss_variates
              (set_dose m dose) target cd 30.0 k Hgf Hsize)
    as (res & [m' k'] & ->).
  simpl. eauto.
Qed.

Lemma sweep_returns (target : grid) (cd : R) (doses focuses : list R)
  (st : sweep_state) :
  shape_preserving gaussian_filter -> grid_size target <> 0%nat ->
  exists st',
    sweep gaussian_filter gauss_variates target cd doses focuses st
    = Returned st'.
Proof.
  intros Hgf Hsize. unfold sweep. apply for_each_M_returns.
  intros [i dose] st1. apply for_each_M_returns.
  intros [j focus] st2. now apply sweep_point_returns.
Qed.

End Sweep.

Lemma hd_map_repeat {A B : Type} (f : A -> B) (a : A) (d : B) (n : nat) :
  n <> 0%nat -> hd d (map f (repeat a n)) = f a.
Proof. destruct n; [congruence | reflexivity]. Qed.

Lemma length_enumerate {A : Type} (l : list A) : length (enumerate l) = length l.
Proof. unfold enumerate. rewrite length_combine, length_seq. lia. Qed.

Lemma sweep_target_size (lo hi : Z) (v : R) :
  grid_size (assign_columns (np_zeros 1000 1000) lo hi v) = (1000 * 1000)%nat.
Proof.
  unfold grid_size, height, width, assign_columns, np_zeros.
  rewrite length_map, repeat_length.
  rewrite hd_map_repeat by discriminate.
  now rewrite length_map, length_enumerate, repeat_length.
Qed.

(** C4.  Two calls of [calculate_process_window] that differ only in the
    focus range (same model, target CD, dose range, step count and stream of
    random draws) have the same outcome: the same CD-error and LER
    matrices, the same window matrix and window area (and the same dose axis,
    final model and generator position), or the same exception. *)
Theorem process_window_independent_of_focus
  (gaussian_filter : grid -> R -> grid) (gauss_variates : nat -> R)
  (m : EUVExposureModel) (target_cd_nm : R) (dose_range : option (R * R))
  (focus_range1 focus_range2 : option (R * R)) (steps k : nat) :
  py_map sweep_report
    (calculate_process_window gaussian_filter gauss_variates m target_cd_nm
       dose_range focus_range1 steps k)
  = py_map sweep_report
      (calculate_process_window gaussian_filter gauss_variates m target_cd_nm
         dose_range focus_range2 steps k).
Proof.
  unfold calculate_process_window. cbv zeta.
  set (f1 := match focus_range1 with Some f => f | None => _ end).
  set (f2 := match focus_range2 with Some f => f | None => _ end).
  rewrite (sweep_ignores_focus_values gaussian_filter gauss_variates _ _ _
             (np_linspace (fst f1) (snd f1) steps)
             (np_linspace (fst f2) (snd f2) steps))
    by now rewrite !length_np_linspace.
  destruct (sweep _ _ _ _ _ _ _) as [[[[m' k'] cds] ls] | e]; reflexivity.
Qed.

(** The sweep does return when the blur keeps the shape of its input. *)
Lemma calculate_process_window_returns
  (gaussian_filter : grid -> R -> grid) (gauss_variates : nat -> R)
  (m : EUVExposureModel) (target_cd_nm : R)
  (dose_range focus_range : option (R * R)) (steps k : nat) :
  shape_preserving gaussian_filter ->
  exists r,
    calculate_process_window gaussian_filter gauss_variates m target_cd_nm
      dose_range focus_range steps k = Returned r.
Proof.
  intros Hgf. unfold calculate_process_window. cbv zeta.
  match goal with
  | |- context [sweep _ _ ?tp ?cd ?ds ?fs ?st] =>
      destruct (sweep_returns gaussian_filter gauss_variates tp cd ds fs st Hgf)
        as [[[[m' k'] cds] ls] ->]
  end.
  - rewrite sweep_target_size. discriminate.
  - simpl. eauto.
Qed.


(** * Further properties of the pipeline *)

(** ** Loops that fill a grid cell by cell *)

Lemma grid_get_matrix_set (g : grid) (y x y' x' : nat) (v : R) :
  (y' < length g)%nat -> (x' < length (nth y' g []))%nat ->
  grid_get (matrix_set g y' x' v) y x
  = if (x =? x')%nat && (y =? y')%nat then v else grid_get g y x.
Proof.
  intros Hy Hx. unfold grid_get, matrix_set.
  destruct (Nat.eqb_spec y y') as [-> | Ny].
  - rewrite nth_update_nth_eq by exact Hy.
    destruct (Nat.eqb_spec x x') as [-> | Nx]; simpl.
    + now rewrite nth_update_nth_eq.
    + now rewrite nth_update_nth_neq.
  - rewrite nth_update_nth_neq by exact Ny. now rewrite andb_false_r.
Qed.

Section Fill.

Variables (w h : nat).

(** One row: the cells [x] of [xs] for which [c x] holds receive [v x]. *)
Lemma fill_row (c : nat -> bool) (v : nat -> R) (body : nat -> grid -> grid)
  (y : nat) :
  (forall x acc, body x acc = if c x then matrix_set acc y x (v x) else acc) ->
  (y < h)%nat ->
  forall xs g,
    Forall (fun x => (x < w)%nat) xs -> well_shaped w h g ->
    well_shaped w h (fold_left (fun acc x => body x acc) xs g) /\
    forall y' x', (y' < h)%nat -> (x' < w)%nat ->
      grid_get (fold_left (fun acc x => body x acc) xs g) y' x'
      = if (y' =? y)%nat && existsb (Nat.eqb x') xs && c x'
        then v x' else grid_get g y' x'.
Proof.
  intros Hbody Hy xs. induction xs as [| x xs IH]; intros g Hxs Hg.
  - split; [exact Hg |]. intros y' x' _ _. simpl. now rewrite andb_false_r.
  - inversion Hxs as [| ? ? Hx Hxs']; subst. simpl.
    assert (Hg1 : well_shaped w h (body x g)).
    { rewrite Hbody. destruct (c x); [| exact Hg].
      now apply well_shaped_matrix_set. }
    destruct (IH (body x g) Hxs' Hg1) as [Hshape Hget].
    split; [exact Hshape |]. intros y' x' Hy' Hx'.
    rewrite (Hget y' x' Hy' Hx').
    assert (Hstep : grid_get (body x g) y' x'
                    = if (x' =? x)%nat && (y' =? y)%nat && c x
                      then v x else grid_get g y' x').
    { rewrite Hbody. destruct (c x); [| now rewrite andb_false_r].
      rewrite andb_true_r. apply grid_get_matrix_set.
      - destruct Hg as [Hh _]. lia.
      - now rewrite (well_shaped_row w h). }
    rewrite Hstep.
    destruct (Nat.eqb_spec y' y) as [-> | Ny]; simpl;
      [| now rewrite ?andb_false_r].
    destruct (Nat.eqb_spec x' x) as [-> | Nx]; simpl; [| reflexivity].
    now destruct (c x), (existsb (Nat.eqb x) xs).
Qed.

(** All rows: the nested loops over [range(h)] and [range(w)]. *)
Lemma fill_grid (c : nat -> nat -> bool) (v : nat -> nat -> R)
  (body : nat -> nat -> grid -> grid) (g : grid) :
  (forall y x acc,
     body y x acc = if c y x then matrix_set acc y x (v y x) else acc) ->
  well_shaped w h g ->
  well_shaped w h (for_range h (fun y => for_range w (body y)) g) /\
  forall y x, (y < h)%nat -> (x < w)%nat ->
    grid_get (for_range h (fun y => for_range w (body y)) g) y x
    = if c y x then v y x else grid_get g y x.
Proof.
  intros Hbody Hg. unfold for_range at 1 3.
  assert (Hgen : forall ys g0,
             Forall (fun y => (y < h)%nat) ys -> well_shaped w h g0 ->
             well_shaped w h
               (fold_left (fun acc y => for_range w (body y) acc) ys g0) /\
             forall y x, (y < h)%nat -> (x < w)%nat ->
               grid_get (fold_left (fun acc y => for_range w (body y) acc) ys g0)
                        y x
               = if existsb (Nat.eqb y) ys && c y x
                 then v y x else grid_get g0 y x).
  { induction ys as [| y0 ys IH]; intros g0 Hys Hg0.
    - split; [exact Hg0 |]. reflexivity.
    - inversion Hys as [| ? ? Hy0 Hys']; subst. simpl.
      assert (Hw : Forall (fun x => (x < w)%nat) (seq 0 w)).
      { apply Forall_forall. intros x Hx. apply in_seq in Hx. lia. }
      destruct (fill_row (c y0) (v y0) (body y0) y0 (Hbody y0) Hy0
                  (seq 0 w) g0 Hw Hg0) as [Hshape Hrow].
      fold (for_range w (body y0) g0) in Hshape, Hrow.
      destruct (IH _ Hys' Hshape) as [Hshape' Hget].
      split; [exact Hshape' |]. intros y x Hy Hx.
      rewrite (Hget y x Hy Hx), (Hrow y x Hy Hx).
      assert (Hin : existsb (Nat.eqb x) (seq 0 w) = true).
      { apply existsb_exists. exists x. split; [| apply Nat.eqb_refl].
        apply in_seq. lia. }
      rewrite Hin, andb_true_r.
      destruct (Nat.eqb_spec y y0) as [-> | Ny]; simpl; [| reflexivity].
      destruct (c y0 x); [| now rewrite andb_false_r].
      now destruct (existsb (Nat.eqb y0) ys). }
  assert (Hh : Forall (fun y => (y < h)%nat) (seq 0 h)).
  { apply Forall_forall. intros y Hy. apply in_seq in Hy. lia. }
  destruct (Hgen (seq 0 h) g Hh Hg) as [Hshape Hget].
  split; [exact Hshape |]. intros y x Hy Hx.
  rewrite (Hget y x Hy Hx).
  assert (Hin : existsb (Nat.eqb y) (seq 0 h) = true).
  { apply existsb_exists. exists y. split; [| apply Nat.eqb_refl].
    apply in_seq. lia. }
  now rewrite Hin.
Qed.

End Fill.

Lemma grid_get_np_zeros (h w y x : nat) : grid_get (np_zeros h w) y x = 0.
Proof.
  unfold grid_get, np_zeros.
  destruct (Nat.lt_ge_cases y h) as [Hy | Hy].
  - rewrite nth_repeat_lt by exact Hy.
    destruct (Nat.lt_ge_cases x w) as [Hx | Hx].
    + now apply nth_repeat_lt.
    + apply nth_overflow. rewrite repeat_length. exact Hx.
  - rewrite (nth_overflow (repeat (repeat 0 w) h) [])
      by (rewrite repeat_length; exact Hy).
    now destruct x.
Qed.

(** ** Chemical reactions, cell by cell *)

(** For the chemistry ['CAR'] the acid map has the shape of the electron map;
    a cell of positive electron energy e holds
    e * amplification * (1 - quenching) * rate constant and every other cell
    holds 0. *)
Theorem chemical_reactions_car (m : EUVExposureModel) (emap : grid) :
  resist_type (resist m) = "CAR"%string ->
  exists acid,
    simulate_chemical_reactions m emap = Returned acid /\
    well_shaped (width emap) (height emap) acid /\
    forall y x, (y < height emap)%nat -> (x < width emap)%nat ->
      (0 < grid_get emap y x ->
       grid_get acid y x
       = grid_get emap y x * chemical_amplification_factor (resist m)
         * (1 - quenching_factor (resist m))
         * reaction_rate_constant (resist m)) /\
      (~ 0 < grid_get emap y x -> grid_get acid y x = 0).
Proof.
  intros Hcar. unfold simulate_chemical_reactions. rewrite Hcar. simpl String.eqb.
  cbv zeta. eexists. split; [reflexivity |].
  destruct (fill_grid (width emap) (height emap)
              (fun y x => Rltb 0 (grid_get emap y x))
              (fun y x => grid_get emap y x
                          * chemical_amplification_factor (resist m)
                          * (1.0 - quenching_factor (resist m))
                          * reaction_rate_constant (resist m))
              (fun y x acid_map =>
                 if Rlt_dec 0 (grid_get emap y x)
                 then matrix_set acid_map y x
                        (grid_get emap y x
                         * chemical_amplification_factor (resist m)
                         * (1.0 - quenching_factor (resist m))
                         * reaction_rate_constant (resist m))
                 else acid_map)
              (np_zeros (height emap) (width emap)))
    as [Hshape Hget].
  - intros y x acc. unfold Rltb. now destruct (Rlt_dec 0 (grid_get emap y x)).
  - apply well_shaped_np_zeros.
  - split; [exact Hshape |]. intros y x Hy Hx.
    pose proof (Hget y x Hy Hx) as Hcell. unfold grid in Hcell |- *.
    rewrite Hcell. fold grid. rewrite grid_get_np_zeros. unfold Rltb.
    destruct (Rlt_dec 0 (grid_get emap y x)); split; intros; try lra;
      contradiction.
Qed.

Lemma chemical_reactions_car_witness :
  resist_type (resist (init None None)) = "CAR"%string /\
  exists acid,
    simulate_chemical_reactions (init None None) [[2; 0]] = Returned acid /\
    well_shaped 2 1 acid.
Proof.
  split; [reflexivity |].
  destruct (chemical_reactions_car (init None None) [[2; 0]] eq_refl)
    as (acid & Hret & Hshape & _).
  exists acid. split; [exact Hret | exact Hshape].
Defined.

(** For the chemistry ['MeOx'] the reduction map has the shape of the
    electron map; a cell of positive electron energy e holds 0.85 * e and
    every other cell holds 0. *)
Theorem chemical_reactions_meox (m : EUVExposureModel) (emap : grid) :
  resist_type (resist m) = "MeOx"%string ->
  exists acid,
    simulate_chemical_reactions m emap = Returned acid /\
    well_shaped (width emap) (height emap) acid /\
    forall y x, (y < height emap)%nat -> (x < width emap)%nat ->
      (0 < grid_get emap y x -> grid_get acid y x = grid_get emap y x * 0.85) /\
      (~ 0 < grid_get emap y x -> grid_get acid y x = 0).
Proof.
  intros Hmeox. unfold simulate_chemical_reactions. rewrite Hmeox.
  simpl String.eqb. cbv zeta.
  eexists. split; [reflexivity |].
  destruct (fill_grid (width emap) (height emap)
              (fun y x => Rltb 0 (grid_get emap y x))
              (fun y x => grid_get emap y x * 0.85)
              (fun y x acid_map =>
                 if Rlt_dec 0 (grid_get emap y x)
                 then matrix_set acid_map y x (grid_get emap y x * 0.85)
                 else acid_map)
              (np_zeros (height emap) (width emap)))
    as [Hshape Hget].
  - intros y x acc. unfold Rltb. now destruct (Rlt_dec 0 (grid_get emap y x)).
  - apply well_shaped_np_zeros.
  - split; [exact Hshape |]. intros y x Hy Hx.
    pose proof (Hget y x Hy Hx) as Hcell. unfold grid in Hcell |- *.
    rewrite Hcell. fold grid. rewrite grid_get_np_zeros. unfold Rltb.
    destruct (Rlt_dec 0 (grid_get emap y x)); split; intros; try lra;
      contradiction.
Qed.


(** ** Photon statistics on a positive area *)

Lemma sqrt_over_self (x : R) : 0 < x -> sqrt x / x = / sqrt x.
Proof.
  intros Hx. pose proof (sqrt_lt_R0 x Hx) as Hs.
  rewrite <- (sqrt_sqrt x) at 2 by lra.
  field. lra.
Qed.

(** For a positive dose and a positive target area the total photon count N
    is positive and proportional to the area, the shot noise is sqrt N and
    the relative shot noise is 1 / sqrt N; the call leaves the dose and the
    resist as they are and stores the photons per nm2 it reports in the
    tool parameters. *)
Theorem photon_statistics_positive_area (m : EUVExposureModel) (area : R) :
  0 < dose_mJ_cm2 (tool m) ->
  0 < area ->
  let s := fst (calculate_photon_statistics m area) in
  let m' := snd (calculate_photon_statistics m area) in
  0 < total_photons s /\
  total_photons s = stats_photons_per_nm2 s * 1e6 * area /\
  shot_noise s = Num (sqrt (total_photons s)) /\
  relative_shot_noise s = Num (/ sqrt (total_photons s)) /\
  photons_per_nm2 (tool m') = stats_photons_per_nm2 s /\
  dose_mJ_cm2 (tool m') = dose_mJ_cm2 (tool m) /\
  resist m' = resist m /\ metrics m' = metrics m.
Proof.
  intros Hdose Harea s m'.
  pose proof (photons_per_nm2_sign m area Hdose) as Hp.
  pose proof (total_photons_formula m area) as Ht. fold s in Hp, Ht.
  assert (Hpos : 0 < total_photons s) by (rewrite Ht; nra).
  assert (Hshot : shot_noise s = np_sqrt (total_photons s)) by reflexivity.
  assert (Hrel : relative_shot_noise s
                 = np_true_divide (np_sqrt (total_photons s)) (total_photons s))
    by reflexivity.
  assert (Hsqrt : np_sqrt (total_photons s) = Num (sqrt (total_photons s))).
  { unfold np_sqrt. destruct (Rlt_dec (total_photons s) 0); [lra | reflexivity]. }
  split; [exact Hpos |]. split; [rewrite Ht; lra |].
  split; [now rewrite Hshot |]. split.
  - rewrite Hrel, Hsqrt. unfold np_true_divide.
    destruct (Req_dec_T (total_photons s) 0); [lra |].
    now rewrite sqrt_over_self.
  - repeat split.
Qed.

Lemma photon_statistics_positive_area_witness :
  0 < dose_mJ_cm2 (tool (init None None)) /\ 0 < 1 /\
  0 < total_photons (fst (calculate_photon_statistics (init None None) 1)).
Proof.
  assert (Hdose : 0 < dose_mJ_cm2 (tool (init None None))) by (simpl; lra).
  assert (Harea : 0 < 1) by lra.
  split; [exact Hdose |]. split; [exact Harea |].
  apply (photon_statistics_positive_area (init None None) 1 Hdose Harea).
Defined.

(** ** Energy balance of the cascade *)

Lemma length_filter_partition {A : Type} (p : A -> bool) (l : list A) :
  (length (filter p l) + length (filter (fun a => negb (p a)) l))%nat
  = length l.
Proof.
  induction l as [| a l IH]; simpl; [reflexivity |].
  destruct (p a); simpl; lia.
Qed.

(** On a rectangular photon map the deposited energy plus the number of
    electrons scattered outside the grid equals the number of electrons
    generated: the output sums to at most that number, and to exactly that
    number when no electron is lost. *)
Theorem cascade_energy_balance (gv : nat -> R) (m : EUVExposureModel)
  (pm : grid) (k : nat) :
  rectangular (width pm) pm ->
  let out := fst (simulate_electron_cascade gv m pm k) in
  let targets := electron_targets gv py_int m pm k in
  let lost :=
    length (filter (fun t => negb (in_grid (width pm) (height pm) (fst t) (snd t)))
                   targets) in
  np_sum out + INR lost = INR (length (electron_sources m pm)) /\
  0 <= np_sum out <= INR (length (electron_sources m pm)).
Proof.
  intros Hr out targets lost.
  assert (Hsum : np_sum out + INR lost = INR (length (electron_sources m pm))).
  { unfold out. rewrite np_sum_cascade by exact Hr.
    rewrite <- plus_INR. f_equal. unfold lost, targets.
    rewrite length_filter_partition.
    unfold electron_targets. apply length_targets_of. }
  split; [exact Hsum |].
  pose proof (pos_INR lost) as Hlost.
  assert (Hout : 0 <= np_sum out).
  { unfold out. rewrite np_sum_cascade by exact Hr. apply pos_INR. }
  lra.
Qed.

Lemma cascade_energy_balance_witness :
  rectangular (width center_cell) center_cell /\
  0 <= np_sum (fst (simulate_electron_cascade (fun _ => 1 / 8) (init None None)
                      center_cell 0))
    <= INR (length (electron_sources (init None None) center_cell)).
Proof.
  assert (Hr : rectangular (width center_cell) center_cell)
    by (unfold center_cell; repeat constructor).
  split; [exact Hr |].
  apply (cascade_energy_balance (fun _ => 1 / 8) (init None None)
           center_cell 0 Hr).
Defined.

Lemma grid_get_all_cells (P : R -> Prop) (g : grid) (y x : nat) :
  all_cells P g -> P 0 -> P (grid_get g y x).
Proof.
  intros Hall H0. unfold grid_get, all_cells in *.
  destruct (Nat.lt_ge_cases y (length g)) as [Hy | Hy].
  - assert (Hrow : Forall P (nth y g [])).
    { rewrite Forall_forall in Hall. apply Hall. now apply nth_In. }
    destruct (Nat.lt_ge_cases x (length (nth y g []))) as [Hx | Hx].
    + rewrite Forall_forall in Hrow. apply Hrow. now apply nth_In.
    + now rewrite nth_overflow.
  - rewrite (nth_overflow g [] Hy). now destruct x.
Qed.

Lemma flat_map_all_nil {A B : Type} (f : A -> list B) (l : list A) :
  (forall a, f a = []) -> flat_map f l = [].
Proof.
  intros Hf. induction l as [| a l IH]; simpl; [reflexivity |].
  now rewrite Hf, IH.
Qed.

(** A photon map without a positive cell generates no electron: the output
    is the zero map and no random draw is consumed. *)
Theorem cascade_of_dark_map (gv : nat -> R) (m : EUVExposureModel)
  (pm : grid) (k : nat) :
  all_cells (fun p => p <= 0) pm ->
  simulate_electron_cascade gv m pm k = (np_zeros_like pm, k).
Proof.
  intros Hdark.
  assert (Hsrc : electron_sources m pm = []).
  { unfold electron_sources. apply flat_map_all_nil. intros y.
    apply flat_map_all_nil. intros x.
    rewrite electron_count_nonpositive; [reflexivity |].
    apply (grid_get_all_cells (fun p => p <= 0)); [exact Hdark | lra]. }
  rewrite cascade_as_trace. unfold electron_targets. rewrite Hsrc. simpl.
  now rewrite Nat.add_0_r.
Qed.

Lemma cascade_of_dark_map_witness :
  all_cells (fun p => p <= 0) [[0; -1]; [0; 0]] /\
  simulate_electron_cascade (fun _ => 1 / 8) (init None None)
    [[0; -1]; [0; 0]] 5 = (np_zeros_like [[0; -1]; [0; 0]], 5%nat).
Proof.
  assert (Hdark : all_cells (fun p => p <= 0) [[0; -1]; [0; 0]]).
  { unfold all_cells. repeat constructor; lra. }
  split; [exact Hdark |].
  apply (cascade_of_dark_map (fun _ => 1 / 8) (init None None)
           [[0; -1]; [0; 0]] 5 Hdark).
Defined.


(** ** Stochastic metrics of uniform patterns *)

Lemma np_diff_constant (v : R) (row : list R) :
  Forall (fun c => c = v) row -> Forall (fun d => d = 0) (np_diff Rminus row).
Proof.
  induction row as [| a [| b row] IH]; intros Hrow; simpl; try constructor.
  - inversion Hrow as [| ? ? Ha Hrow']; subst.
    inversion Hrow' as [| ? ? Hb _]; subst. lra.
  - apply IH. now inversion Hrow.
Qed.

Lemma no_column_equal_one (l : list R) (s : nat) :
  Forall (fun d => d = 0) l ->
  flat_map (fun '(x, v) => if Req_dec_T v 1 then [Z.of_nat x] else [])
           (combine (seq s (length l)) l) = [].
Proof.
  revert s. induction l as [| d l IH]; intros s Hl; simpl; [reflexivity |].
  inversion Hl as [| ? ? Hd Hl']; subst.
  destruct (Req_dec_T 0 1); [lra |]. simpl. now apply IH.
Qed.

Lemma flat_map_nil_in {A B : Type} (f : A -> list B) (l : list A) :
  (forall a, In a l -> f a = []) -> flat_map f l = [].
Proof.
  induction l as [| a l IH]; intros Hf; simpl; [reflexivity |].
  rewrite (Hf a) by now left. apply IH. intros b Hb. apply Hf. now right.
Qed.

Lemma uniform_pattern_has_no_edge (v : R) (pattern : grid) :
  all_cells (fun c => c = v) pattern ->
  columns_equal_one (np_diff_axis1 pattern) = [].
Proof.
  intros Hall. unfold columns_equal_one, np_diff_axis1.
  rewrite flat_map_concat_map, map_map, <- flat_map_concat_map.
  apply flat_map_nil_in. intros row Hrow. unfold enumerate.
  apply no_column_equal_one, (np_diff_constant v).
  unfold all_cells in Hall. rewrite Forall_forall in Hall. now apply Hall.
Qed.

Lemma Rsum_firstn_constant (v : R) (l : list R) (n : nat) :
  Forall (fun c => c = v) l -> (n <= length l)%nat ->
  Rsum (firstn n l) = INR n * v.
Proof.
  revert n. induction l as [| a l IH]; intros [| n] Hl Hn; simpl in *;
    try lra; try lia.
  inversion Hl as [| ? ? Ha Hl']; subst.
  rewrite IH by (assumption || lia).
  destruct n; simpl; lra.
Qed.

Lemma Forall_skipn {A : Type} (P : A -> Prop) (n : nat) (l : list A) :
  Forall P l -> Forall P (skipn n l).
Proof.
  revert l. induction n as [| n IH]; intros [| a l] Hl; simpl; auto.
  apply IH. now inversion Hl.
Qed.

Lemma Forall_firstn {A : Type} (P : A -> Prop) (n : nat) (l : list A) :
  Forall P l -> Forall P (firstn n l).
Proof.
  revert l. induction n as [| n IH]; intros [| a l] Hl; simpl; auto.
  inversion Hl; subst. constructor; auto.
Qed.

Lemma Rsum_map_constant {A : Type} (f : A -> R) (s : R) (l : list A) :
  Forall (fun a => f a = s) l -> Rsum (map f l) = INR (length l) * s.
Proof.
  induction 1 as [| a l Ha _ IH]; [simpl; lra |].
  cbn [map Rsum fold_right length]. fold (Rsum (map f l)).
  rewrite IH, Ha, S_INR. lra.
Qed.

(** The 3x3 neighbourhood of an interior cell of a uniform pattern. *)
Lemma uniform_neighbourhood (w h : nat) (v : R) (pattern : grid) (y x : nat) :
  well_shaped w h pattern -> all_cells (fun c => c = v) pattern ->
  (1 <= y)%nat -> (y + 1 < h)%nat -> (1 <= x)%nat -> (x + 1 < w)%nat ->
  np_sum (grid_slice pattern (y - 1) (y + 2) (x - 1) (x + 2)) = 9 * v.
Proof.
  intros [Hh Hw] Hall Hy1 Hy2 Hx1 Hx2. unfold np_sum, grid_slice.
  rewrite map_map.
  replace (y + 2 - (y - 1))%nat with 3%nat by lia.
  replace (x + 2 - (x - 1))%nat with 3%nat by lia.
  rewrite (Rsum_map_constant _ (3 * v)).
  - rewrite length_firstn, length_skipn, Hh.
    replace (Nat.min 3 (h - (y - 1))) with 3%nat by lia. simpl. lra.
  - apply Forall_firstn, Forall_skipn.
    unfold all_cells, rectangular in *.
    rewrite Forall_forall in *. intros row Hrow.
    rewrite (Rsum_firstn_constant v).
    + simpl. lra.
    + apply Forall_skipn, Forall_forall, Forall_forall. now apply Hall.
    + rewrite length_skipn, (Hw row Hrow). lia.
Qed.

Lemma fold_left_invariant_in {A S : Type} (P : S -> Prop) (body : A -> S -> S)
  (l : list A) (s : S) :
  (forall a s', In a l -> P s' -> P (body a s')) -> P s ->
  P (fold_left (fun acc a => body a acc) l s).
Proof.
  revert s. induction l as [| a l IH]; intros s Hbody Hs; simpl; [exact Hs |].
  apply IH.
  - intros b s' Hb. apply Hbody. now right.
  - apply Hbody; [now left | exact Hs].
Qed.

Lemma grid_get_uniform (v : R) (pattern : grid) (y x : nat) :
  rectangular (width pattern) pattern -> all_cells (fun c => c = v) pattern ->
  (y < height pattern)%nat -> (x < width pattern)%nat ->
  grid_get pattern y x = v.
Proof.
  intros Hr Hall Hy Hx. unfold grid_get, all_cells, rectangular, height in *.
  rewrite Forall_forall in Hr, Hall.
  pose proof (nth_In pattern [] Hy) as Hrow.
  pose proof (Hall _ Hrow) as Hcells. rewrite Forall_forall in Hcells.
  apply Hcells, nth_In. now rewrite (Hr _ Hrow).
Qed.

Lemma uniform_pattern_has_no_defect (v : R) (pattern : grid) :
  rectangular (width pattern) pattern -> all_cells (fun c => c = v) pattern ->
  count_defects pattern = 0%nat.
Proof.
  intros Hr Hall. unfold count_defects, for_range_from.
  assert (Hshape : well_shaped (width pattern) (height pattern) pattern)
    by (split; [reflexivity | exact Hr]).
  apply fold_left_invariant_in; [| reflexivity].
  intros y d Hy Hd. apply in_seq in Hy.
  apply fold_left_invariant_in; [| exact Hd].
  intros x d' Hx Hd'. apply in_seq in Hx. subst d'.
  rewrite (grid_get_uniform v) by (assumption || lia).
  rewrite (uniform_neighbourhood (width pattern) (height pattern) v)
    by (assumption || lia).
  unfold Reqb, Rleb.
  destruct (Req_dec_T v 1), (Rle_dec (9 * v) 2), (Req_dec_T v 0),
    (Rle_dec 8 (9 * v)); simpl; try reflexivity; exfalso; lra.
Qed.

Lemma uniform_pattern_metrics (v : R) (pattern : grid) (target_cd_nm : R) :
  rectangular (width pattern) pattern ->
  all_cells (fun c => c = v) pattern ->
  grid_size pattern <> 0%nat ->
  exists sm,
    calculate_stochastic_metrics pattern target_cd_nm = Returned sm /\
    sm_ler_nm sm = 0 /\ sm_cd_error_nm sm = NaN /\
    sm_stochastic_defects_per_um2 sm = 0 /\ sm_pattern_fidelity sm = 1.
Proof.
  intros Hr Hall Hsize. unfold calculate_stochastic_metrics.
  rewrite (uniform_pattern_has_no_edge v) by exact Hall.
  rewrite (uniform_pattern_has_no_defect v) by assumption.
  destruct (Req_dec_T _ 0) as [Ea | Ea];
    [now apply metrics_area_zero in Ea |].
  eexists. split; [reflexivity |]. cbn [sm_ler_nm sm_cd_error_nm
    sm_stochastic_defects_per_um2 sm_pattern_fidelity].
  assert (Hzero : INR 0 / (INR (grid_size pattern) * nm_per_pixel ^ 2 * 1e-6)
                  = 0) by (simpl INR; unfold Rdiv; lra).
  rewrite Hzero. simpl. rewrite np_mean_empty. simpl.
  repeat split; lra.
Qed.

(** On a non-empty rectangular pattern whose cells all hold the same value
    (fully remaining, fully removed, or any other constant) the metrics are
    degenerate: no edge, LER 0, a CD error that is [nan], defect density 0
    and pattern fidelity 1. *)
Theorem metrics_of_uniform_pattern (v : R) (pattern : grid) (target_cd_nm : R) :
  rectangular (width pattern) pattern ->
  all_cells (fun c => c = v) pattern ->
  grid_size pattern <> 0%nat ->
  exists sm,
    calculate_stochastic_metrics pattern target_cd_nm = Returned sm /\
    sm_ler_nm sm = 0 /\ sm_cd_error_nm sm = NaN /\
    sm_stochastic_defects_per_um2 sm = 0 /\ sm_pattern_fidelity sm = 1.
Proof.
  intros Hr Hall Hsize. now apply (uniform_pattern_metrics v).
Qed.

Lemma metrics_of_uniform_pattern_witness :
  rectangular (width [[1; 1; 1]; [1; 1; 1]; [1; 1; 1]])
    [[1; 1; 1]; [1; 1; 1]; [1; 1; 1]] /\
  exists sm,
    calculate_stochastic_metrics [[1; 1; 1]; [1; 1; 1]; [1; 1; 1]] 16.0
    = Returned sm /\
    sm_cd_error_nm sm = NaN /\ sm_pattern_fidelity sm = 1.
Proof.
  assert (Hr : rectangular (width [[1; 1; 1]; [1; 1; 1]; [1; 1; 1]])
                 [[1; 1; 1]; [1; 1; 1]; [1; 1; 1]]) by repeat constructor.
  split; [exact Hr |].
  destruct (metrics_of_uniform_pattern 1 [[1; 1; 1]; [1; 1; 1]; [1; 1; 1]]
              16.0 Hr) as (sm & Hret & _ & Hcd & _ & Hfid).
  - unfold all_cells. repeat constructor.
  - discriminate.
  - exists sm. repeat split; assumption.
Defined.


(** ** What a full run leaves behind *)

Section RunEffects.

Variable gaussian_filter : grid -> R -> grid.
Variable gauss_variates : nat -> R.

Lemma run_full_simulation_outcome (m : EUVExposureModel) (target : grid)
  (cd t : R) (k : nat) (res : simulation_results) (m' : EUVExposureModel)
  (k' : nat) :
  run_full_simulation gaussian_filter gauss_variates m target cd t k
  = Returned (res, (m', k')) ->
  exists sm,
    calculate_stochastic_metrics (final_pattern res) cd = Returned sm /\
    m' = update_metrics
           (snd (calculate_photon_statistics m
                   (np_sum target * nm_per_pixel ^ 2 * 1e-6))) sm /\
    result_metrics res = metrics m' /\
    k' = snd (simulate_electron_cascade gauss_variates m (photon_map res) k) /\
    final_pattern res
    = simulate_development
        (calculate_development_rate m
           (gaussian_filter (acid_map res)
              (acid_diffusion_length_nm (resist m) / nm_per_pixel))) t /\
    simulate_chemical_reactions m (electron_map res) = Returned (acid_map res) /\
    electron_map res
    = fst (simulate_electron_cascade gauss_variates m (photon_map res) k) /\
    photon_map res
    = grid_mul_scalar
        (grid_mul_scalar (gaussian_filter target (15.0 / nm_per_pixel))
                         (absorption_coefficient (resist m)))
        (dose_mJ_cm2 (tool m) * 1e-3 / (eV_per_photon * 1.602e-19) * 1e-14).
Proof.
  unfold run_full_simulation. cbv zeta.
  destruct (simulate_chemical_reactions _ _) as [acid | e] eqn:Hchem; simpl;
    [| discriminate].
  destruct (calculate_stochastic_metrics _ _) as [sm | e] eqn:Hsm; simpl;
    [| discriminate].
  intros H. injection H as <- <- <-. exists sm. simpl.
  repeat split; try assumption; reflexivity.
Qed.

(** A returned run keeps the dose and the resist, refreshes the cached
    photons per nm2 from the dose, records the dose as effective dose and the
    metrics it returns in the model, never writes the LWR nor the
    process-window size, and advances the random generator by two draws per
    generated electron. *)
Theorem run_full_simulation_effects (m : EUVExposureModel) (target : grid)
  (cd t : R) (k : nat) (res : simulation_results) (m' : EUVExposureModel)
  (k' : nat) :
  run_full_simulation gaussian_filter gauss_variates m target cd t k
  = Returned (res, (m', k')) ->
  resist m' = resist m /\
  dose_mJ_cm2 (tool m') = dose_mJ_cm2 (tool m) /\
  photons_per_nm2 (tool m')
  = dose_mJ_cm2 (tool m) * 1e-3 / (92.0 * 1.602e-19) * 1e-14 /\
  effective_dose_mJ_cm2 (metrics m') = dose_mJ_cm2 (tool m) /\
  lwr_nm (metrics m') = lwr_nm (metrics m) /\
  process_window_size (metrics m') = process_window_size (metrics m) /\
  result_metrics res = metrics m' /\
  k' = (k + 2 * length (electron_sources m (photon_map res)))%nat.
Proof.
  intros Hrun.
  destruct (run_full_simulation_outcome m target cd t k res m' k' Hrun)
    as (sm & _ & -> & Hres & -> & _).
  rewrite cascade_as_trace. repeat split. exact Hres.
Qed.

Lemma run_full_simulation_final_shape (m : EUVExposureModel) (target : grid)
  (cd t : R) (k : nat) (res : simulation_results)
  (st : EUVExposureModel * nat) :
  shape_preserving gaussian_filter ->
  run_full_simulation gaussian_filter gauss_variates m target cd t k
  = Returned (res, st) ->
  well_shaped (width target) (height target) (final_pattern res).
Proof.
  intros Hgf Hrun. destruct st as [m' k'].
  destruct (run_full_simulation_outcome m target cd t k res m' k' Hrun)
    as (sm & _ & _ & _ & _ & Hfinal & Hchem & Hemap & Hpm).
  assert (Hpmshape : well_shaped (width target) (height target) (photon_map res)).
  { rewrite Hpm. unfold grid_mul_scalar. now do 2 apply well_shaped_grid_map. }
  destruct (well_shaped_dimensions _ _ _ target eq_refl eq_refl Hpmshape)
    as [Hh Hw].
  assert (Hr : rectangular (width (photon_map res)) (photon_map res))
    by (rewrite Hw; apply Hpmshape).
  pose proof (cascade_shape gauss_variates m (photon_map res) k Hr) as He.
  rewrite <- Hemap, Hh, Hw in He.
  destruct (well_shaped_dimensions _ _ _ target eq_refl eq_refl He)
    as [Hhe Hwe].
  apply simulate_chemical_reactions_shape in Hchem.
  rewrite Hhe, Hwe in Hchem.
  destruct (well_shaped_dimensions _ _ _ target eq_refl eq_refl Hchem)
    as [Hha Hwa].
  rewrite Hfinal, simulate_development_pointwise,
    calculate_development_rate_pointwise.
  do 2 apply well_shaped_grid_map.
  rewrite <- Hha, <- Hwa. apply Hgf.
Qed.

(** With development base rate 0.5 nm/s, contrast 4.5 and 30 s of
    development, a blur that keeps the shape of its input and a target with
    at least one cell, every run returns and reports the same degenerate
    metrics whatever the target, the dose and the random draws: LER 0, a CD
    error that is [nan], defect density 0 and pattern fidelity 1. *)
Theorem default_run_reports_no_line (m : EUVExposureModel) (target : grid)
  (cd : R) (k : nat) :
  development_rate_base_nm_s (resist m) = 0.5 ->
  development_contrast (resist m) = 4.5 ->
  shape_preserving gaussian_filter ->
  grid_size target <> 0%nat ->
  exists res st,
    run_full_simulation gaussian_filter gauss_variates m target cd 30.0 k
    = Returned (res, st) /\
    ler_nm (result_metrics res) = 0 /\
    cd_error_nm (result_metrics res) = NaN /\
    stochastic_defects_per_um2 (result_metrics res) = 0 /\
    pattern_fidelity (result_metrics res) = Some 1.
Proof.
  intros Hbase Hcontrast Hgf Hsize.
  destruct (run_full_simulation_returns gaussian_filter gauss_variates m target
              cd 30.0 k Hgf Hsize) as (res & [m' k'] & Hrun).
  exists res, (m', k'). split; [exact Hrun |].
  pose proof (run_full_simulation_final_shape m target cd 30.0 k res (m', k')
                Hgf Hrun) as Hshape.
  destruct (run_full_simulation_outcome m target cd 30.0 k res m' k' Hrun)
    as (sm & Hsm & -> & Hres & _ & Hfinal & _).
  assert (Hones : all_cells (fun c => c = 1) (final_pattern res)).
  { rewrite Hfinal. apply slow_development_keeps_resist.
    now apply development_rate_below_base. }
  destruct (well_shaped_dimensions _ _ _ target eq_refl eq_refl Hshape)
    as [Hh Hw].
  destruct (uniform_pattern_metrics 1 (final_pattern res) cd)
    as (sm' & Hsm' & Hler & Hcd & Hdef & Hfid).
  - rewrite Hw. apply Hshape.
  - exact Hones.
  - unfold grid_size in *. now rewrite Hh, Hw.
  - rewrite Hsm in Hsm'. injection Hsm' as <-.
    rewrite Hres. simpl. rewrite Hler, Hcd, Hdef, Hfid. repeat split.
Qed.

End RunEffects.

Lemma run_full_simulation_effects_witness :
  exists res m' k',
    run_full_simulation zero_filter (fun _ => 1 / 8) (init None None)
      center_cell 16.0 30.0 0 = Returned (res, (m', k')) /\
    dose_mJ_cm2 (tool m') = dose_mJ_cm2 (tool (init None None)) /\
    lwr_nm (metrics m') = lwr_nm (metrics (init None None)).
Proof.
  destruct (run_full_simulation_returns zero_filter (fun _ => 1 / 8)
              (init None None) center_cell 16.0 30.0 0 zero_filter_shape)
    as (res & [m' k'] & Hrun).
  - unfold grid_size, height, width, center_cell. simpl. lia.
  - exists res, m', k'. split; [exact Hrun |].
    destruct (run_full_simulation_effects zero_filter (fun _ => 1 / 8)
                (init None None) center_cell 16.0 30.0 0 res m' k' Hrun)
      as (_ & Hdose & _ & _ & Hlwr & _).
    split; [exact Hdose | exact Hlwr].
Defined.

Lemma default_run_reports_no_line_witness :
  development_rate_base_nm_s (resist (init None None)) = 0.5 /\
  development_contrast (resist (init None None)) = 4.5 /\
  shape_preserving zero_filter /\
  grid_size center_cell <> 0%nat /\
  exists res st,
    run_full_simulation zero_filter (fun _ => 1 / 8) (init None None)
      center_cell 16.0 30.0 0 = Returned (res, st) /\
    cd_error_nm (result_metrics res) = NaN.
Proof.
  assert (Hsize : grid_size center_cell <> 0%nat)
    by (unfold grid_size, height, width, center_cell; simpl; lia).
  split; [reflexivity |]. split; [reflexivity |].
  split; [exact zero_filter_shape |]. split; [exact Hsize |].
  destruct (default_run_reports_no_line zero_filter (fun _ => 1 / 8)
              (init None None) center_cell 16.0 0 eq_refl eq_refl
              zero_filter_shape Hsize) as (res & st & Hrun & _ & Hcd & _).
  exists res, st. split; [exact Hrun | exact Hcd].
Defined.


(** ** The sweep: axes, restored dose, window area *)

Lemma for_each_M_invariant {A S : Type} (P : S -> Prop)
  (body : A -> S -> py_result S) (l : list A) (s s' : S) :
  (forall a s1 s2, P s1 -> body a s1 = Returned s2 -> P s2) ->
  P s -> for_each_M l body s = Returned s' -> P s'.
Proof.
  intros Hbody. revert s. induction l as [| a l IH]; intros s Hs Hrun;
    simpl in Hrun.
  - now injection Hrun as <-.
  - destruct (body a s) as [s1 | e] eqn:Hb; simpl in Hrun; [| discriminate].
    apply (IH s1); [| exact Hrun]. now apply (Hbody a s).
Qed.

Lemma for_each_M_snoc {A S : Type} (body : A -> S -> py_result S)
  (l : list A) (a : A) (s s' : S) :
  for_each_M (l ++ [a]) body s = Returned s' ->
  exists s1, for_each_M l body s = Returned s1 /\ body a s1 = Returned s'.
Proof.
  revert s. induction l as [| b l IH]; intros s Hrun; simpl in Hrun.
  - exists s. split; [reflexivity |].
    destruct (body a s) as [s1 | e]; simpl in Hrun; [exact Hrun | discriminate].
  - simpl. destruct (body b s) as [s1 | e]; simpl in *; [| discriminate].
    now apply IH.
Qed.

Lemma enumerate_snoc {A : Type} (l : list A) (a : A) :
  enumerate (l ++ [a]) = enumerate l ++ [(length l, a)].
Proof. unfold enumerate. now rewrite combine_seq_app. Qed.

Lemma np_linspace_last (a b : R) (n : nat) :
  exists l, np_linspace a b (S (S n)) = l ++ [b].
Proof. unfold np_linspace. eexists. reflexivity. Qed.

Lemma np_linspace_first (a b : R) (n : nat) :
  hd 0 (np_linspace a b (S n)) = a.
Proof. destruct n; simpl; [reflexivity | lra]. Qed.

Section SweepEffects.

Variable gaussian_filter : grid -> R -> grid.
Variable gauss_variates : nat -> R.

Lemma sweep_point_outcome (target : grid) (cd : R) (i j : nat)
  (dose focus : R) (m : EUVExposureModel) (k : nat)
  (cds : list (list np_float)) (ls : grid) (st' : sweep_state) :
  sweep_point gaussian_filter gauss_variates target cd i dose j focus
    (m, k, cds, ls) = Returned st' ->
  exists res m2 k',
    run_full_simulation gaussian_filter gauss_variates (set_dose m dose)
      target cd 30.0 k = Returned (res, (m2, k')) /\
    st' = (set_dose m2 (dose_mJ_cm2 (tool m)), k',
           matrix_set cds i j (cd_error_nm (result_metrics res)),
           matrix_set ls i j (ler_nm (result_metrics res))).
Proof.
  unfold sweep_point.
  destruct (run_full_simulation _ _ _ _ _ _ _) as [[res [m2 k']] | e];
    simpl; [| discriminate].
  intros H. injection H as <-. now exists res, m2, k'.
Qed.

(** One sweep point: the dose and the resist are as before, the cached
    photons per nm2 are those of the dose of the point. *)
Lemma sweep_point_model (target : grid) (cd : R) (i j : nat) (dose focus : R)
  (st st' : sweep_state) :
  sweep_point gaussian_filter gauss_variates target cd i dose j focus st
  = Returned st' ->
  let m := fst (fst (fst st)) in
  let m' := fst (fst (fst st')) in
  dose_mJ_cm2 (tool m') = dose_mJ_cm2 (tool m) /\
  resist m' = resist m /\
  photons_per_nm2 (tool m') = dose * 1e-3 / (92.0 * 1.602e-19) * 1e-14.
Proof.
  destruct st as [[[m k] cds] ls]. intros Hpoint.
  destruct (sweep_point_outcome target cd i j dose focus m k cds ls st' Hpoint)
    as (res & m2 & k' & Hrun & ->).
  destruct (run_full_simulation_outcome gaussian_filter gauss_variates
              (set_dose m dose) target cd 30.0 k res m2 k' Hrun)
    as (sm & _ & -> & _).
  simpl. repeat split.
Qed.

Lemma sweep_keeps_dose_and_resist (target : grid) (cd : R)
  (doses focuses : list R) (st st' : sweep_state) :
  sweep gaussian_filter gauss_variates target cd doses focuses st
  = Returned st' ->
  dose_mJ_cm2 (tool (fst (fst (fst st'))))
  = dose_mJ_cm2 (tool (fst (fst (fst st)))) /\
  resist (fst (fst (fst st'))) = resist (fst (fst (fst st))).
Proof.
  unfold sweep. intros Hrun.
  set (P := fun s : sweep_state =>
              dose_mJ_cm2 (tool (fst (fst (fst s))))
              = dose_mJ_cm2 (tool (fst (fst (fst st)))) /\
              resist (fst (fst (fst s))) = resist (fst (fst (fst st)))).
  refine (for_each_M_invariant P _ _ st st' _ _ Hrun);
    [| split; reflexivity].
  intros [i dose] s1 s2 Hs1 Hinner.
  refine (for_each_M_invariant P _ _ s1 s2 _ Hs1 Hinner).
  intros [j focus] s3 s4 [Hd Hr] Hpoint.
  destruct (sweep_point_model target cd i j dose focus s3 s4 Hpoint)
    as (Hd' & Hr' & _).
  split; congruence.
Qed.

Lemma sweep_last_dose (target : grid) (cd : R) (doses focuses : list R)
  (dose focus : R) (st st' : sweep_state) :
  sweep gaussian_filter gauss_variates target cd (doses ++ [dose])
    (focuses ++ [focus]) st = Returned st' ->
  photons_per_nm2 (tool (fst (fst (fst st'))))
  = dose * 1e-3 / (92.0 * 1.602e-19) * 1e-14.
Proof.
  unfold sweep. rewrite !enumerate_snoc. intros Hrun.
  apply for_each_M_snoc in Hrun. destruct Hrun as (s1 & _ & Hinner).
  apply for_each_M_snoc in Hinner. destruct Hinner as (s2 & _ & Hpoint).
  now destruct (sweep_point_model target cd _ _ dose focus s2 st' Hpoint)
    as (_ & _ & Hp).
Qed.

(** A returned sweep leaves the dose and the resist of the model as they
    were; with at least two steps the cached photons per nm2 are left at the
    value of the last dose of the axis (the upper end of the dose range),
    not at the value of the restored dose. *)
Theorem process_window_restores_dose (m : EUVExposureModel) (target_cd_nm : R)
  (dose_range focus_range : option (R * R)) (steps k : nat)
  (r : process_window_result) (m' : EUVExposureModel) (k' : nat) :
  calculate_process_window gaussian_filter gauss_variates m target_cd_nm
    dose_range focus_range steps k = Returned (r, (m', k')) ->
  dose_mJ_cm2 (tool m') = dose_mJ_cm2 (tool m) /\
  resist m' = resist m /\
  ((2 <= steps)%nat ->
   photons_per_nm2 (tool m')
   = match dose_range with
     | Some d => snd d
     | None => dose_mJ_cm2 (tool m) * 1.2
     end * 1e-3 / (92.0 * 1.602e-19) * 1e-14).
Proof.
  unfold calculate_process_window. cbv zeta.
  set (dr := match dose_range with Some d => d | None => _ end).
  set (fr := match focus_range with Some f => f | None => _ end).
  destruct (sweep _ _ _ _ _ _ _) as [[[[m1 k1] cds] ls] | e] eqn:Hsweep;
    simpl; [| discriminate].
  intros H. injection H as _ <- _.
  destruct (sweep_keeps_dose_and_resist _ _ _ _ _ _ Hsweep) as [Hd Hr].
  simpl in Hd, Hr. split; [exact Hd |]. split; [exact Hr |].
  intros Hsteps. destruct steps as [| [| n]]; try lia.
  destruct (np_linspace_last (fst dr) (snd dr) n) as [dl Hdl].
  destruct (np_linspace_last (fst fr) (snd fr) n) as [fl Hfl].
  rewrite Hdl, Hfl in Hsweep.
  rewrite (sweep_last_dose _ _ _ _ _ _ _ _ Hsweep : photons_per_nm2 (tool m1) = _).
  unfold dr. now destruct dose_range.
Qed.

(** The axes of a returned sweep have [steps] values each; they start at the
    lower end of their range and, with at least two steps, stop at the upper
    end (defaults: 0.8 and 1.2 times the dose, -40 and 40 nm). *)
Theorem process_window_axes (m : EUVExposureModel) (target_cd_nm : R)
  (dose_range focus_range : option (R * R)) (steps k : nat)
  (r : process_window_result) (st : EUVExposureModel * nat) :
  calculate_process_window gaussian_filter gauss_variates m target_cd_nm
    dose_range focus_range steps k = Returned (r, st) ->
  let dr := match dose_range with
            | Some d => d
            | None => (dose_mJ_cm2 (tool m) * 0.8, dose_mJ_cm2 (tool m) * 1.2)
            end in
  let fr := match focus_range with Some f => f | None => (-40.0, 40.0) end in
  length (dose_values r) = steps /\ length (focus_values r) = steps /\
  pw_target_cd_nm r = target_cd_nm /\
  ((1 <= steps)%nat ->
   hd 0 (dose_values r) = fst dr /\ hd 0 (focus_values r) = fst fr) /\
  ((2 <= steps)%nat ->
   last (dose_values r) 0 = snd dr /\ last (focus_values r) 0 = snd fr).
Proof.
  unfold calculate_process_window. cbv zeta.
  destruct (sweep _ _ _ _ _ _ _) as [[[[m1 k1] cds] ls] | e];
    simpl py_bind; [| discriminate].
  intros H. injection H as <- _. cbn [dose_values focus_values pw_target_cd_nm].
  rewrite !length_np_linspace.
  split; [reflexivity |]. split; [reflexivity |]. split; [reflexivity |].
  split.
  - intros Hsteps. destruct steps as [| n]; [lia |].
    now rewrite !np_linspace_first.
  - intros Hsteps. destruct steps as [| [| n]]; try lia.
    destruct (np_linspace_last
                (fst match dose_range with
                     | Some d => d
                     | None => (dose_mJ_cm2 (tool m) * 0.8,
                                dose_mJ_cm2 (tool m) * 1.2)
                     end)
                (snd match dose_range with
                     | Some d => d
                     | None => (dose_mJ_cm2 (tool m) * 0.8,
                                dose_mJ_cm2 (tool m) * 1.2)
                     end) n) as [dl ->].
    destruct (np_linspace_last
                (fst match focus_range with
                     | Some f => f
                     | None => (-40.0, 40.0)
                     end)
                (snd match focus_range with
                     | Some f => f
                     | None => (-40.0, 40.0)
                     end) n) as [fl ->].
    now rewrite !last_last.
Qed.

(** With zero steps the sweep runs no simulation: it returns empty axes and
    matrices, leaves the model and the random generator untouched, and
    reports the window area as [nan] (the division 0/0). *)
Theorem process_window_without_steps (m : EUVExposureModel) (target_cd_nm : R)
  (dose_range focus_range : option (R * R)) (k : nat) :
  exists r,
    calculate_process_window gaussian_filter gauss_variates m target_cd_nm
      dose_range focus_range 0 k = Returned (r, (m, k)) /\
    dose_values r = [] /\ focus_values r = [] /\ cd_errors r = [] /\
    lers r = [] /\ process_window r = [] /\ window_area r = NaN.
Proof.
  unfold calculate_process_window. cbv zeta.
  change (np_linspace _ _ 0) with (@nil R).
  unfold sweep. cbn [enumerate length seq combine for_each_M py_bind].
  eexists. split; [reflexivity |].
  cbn [dose_values focus_values cd_errors lers process_window window_area].
  repeat split. simpl. apply np_zero_divided_by_zero.
Qed.

End SweepEffects.


Lemma process_window_restores_dose_witness :
  exists r m' k',
    calculate_process_window zero_filter (fun _ => 1 / 8) (init None None) 16.0
      None None 3 0 = Returned (r, (m', k')) /\
    dose_mJ_cm2 (tool m') = dose_mJ_cm2 (tool (init None None)) /\
    photons_per_nm2 (tool m')
    = dose_mJ_cm2 (tool (init None None)) * 1.2 * 1e-3 / (92.0 * 1.602e-19)
      * 1e-14.
Proof.
  destruct (calculate_process_window_returns zero_filter (fun _ => 1 / 8)
              (init None None) 16.0 None None 3 0 zero_filter_shape)
    as [[r [m' k']] Hrun].
  exists r, m', k'. split; [exact Hrun |].
  destruct (process_window_restores_dose zero_filter (fun _ => 1 / 8)
              (init None None) 16.0 None None 3 0 r m' k' Hrun)
    as (Hd & _ & Hp).
  split; [exact Hd | apply Hp; lia].
Defined.

Lemma process_window_axes_witness :
  exists r st,
    calculate_process_window zero_filter (fun _ => 1 / 8) (init None None) 16.0
      None None 3 0 = Returned (r, st) /\
    length (dose_values r) = 3%nat /\ length (focus_values r) = 3%nat.
Proof.
  destruct (calculate_process_window_returns zero_filter (fun _ => 1 / 8)
              (init None None) 16.0 None None 3 0 zero_filter_shape)
    as [[r st] Hrun].
  exists r, st. split; [exact Hrun |].
  destruct (process_window_axes zero_filter (fun _ => 1 / 8)
              (init None None) 16.0 None None 3 0 r st Hrun)
    as (Hd & Hf & _).
  split; [exact Hd | exact Hf].
Defined.

(** ** The window matrix *)

Lemma nth_matrix_set {A : Type} (g : list (list A)) (i j a b : nat)
  (v d : A) :
  (i < length g)%nat -> (j < length (nth i g []))%nat ->
  nth b (nth a (matrix_set g i j v) []) d
  = if (a =? i)%nat && (b =? j)%nat then v else nth b (nth a g []) d.
Proof.
  intros Hi Hj. unfold matrix_set.
  destruct (Nat.eqb_spec a i) as [-> | Na]; simpl.
  - rewrite nth_update_nth_eq by exact Hi.
    destruct (Nat.eqb_spec b j) as [-> | Nb].
    + now rewrite nth_update_nth_eq.
    + now rewrite nth_update_nth_neq.
  - now rewrite nth_update_nth_neq.
Qed.

Lemma square_matrix_set {A : Type} (n : nat) (g : list (list A)) (i j : nat)
  (v : A) :
  length g = n /\ rectangular n g ->
  length (matrix_set g i j v) = n /\ rectangular n (matrix_set g i j v).
Proof.
  intros [Hl Hr]. unfold matrix_set. split.
  - now rewrite length_update_nth.
  - apply Forall_update_nth; [| exact Hr].
    intros row Hrow. now rewrite length_update_nth.
Qed.

Lemma square_repeat {A : Type} (n : nat) (a : A) :
  length (repeat (repeat a n) n) = n /\ rectangular n (repeat (repeat a n) n).
Proof.
  split; [apply repeat_length |].
  apply Forall_forall. intros row Hrow. apply repeat_spec in Hrow. subst row.
  apply repeat_length.
Qed.

Lemma length_zip_with {A B C : Type} (f : A -> B -> C) (l1 : list A)
  (l2 : list B) :
  length (zip_with f l1 l2) = Nat.min (length l1) (length l2).
Proof.
  revert l2. induction l1 as [| a l1 IH]; intros [| b l2]; simpl; auto.
Qed.

Lemma count_true_bound (n k : nat) (g : list (list bool)) :
  (length g <= k)%nat -> Forall (fun row => (length row <= n)%nat) g ->
  (count_true g <= k * n)%nat.
Proof.
  unfold count_true. revert k.
  induction g as [| row g IH]; intros k Hk Hg; simpl in *; [lia |].
  inversion Hg as [| ? ? Hrow Hg']; subst.
  destruct k as [| k]; [lia |].
  pose proof (IH k ltac:(lia) Hg').
  pose proof (filter_length_le (fun b : bool => b) row). simpl. lia.
Qed.

Lemma window_rows_bound (n : nat) (a b : list (list bool)) :
  rectangular n a ->
  Forall (fun row => (length row <= n)%nat) (zip_with (zip_with andb) a b).
Proof.
  revert b. induction a as [| ra a IH]; intros [| rb b] Ha; simpl;
    try constructor.
  - rewrite length_zip_with. inversion Ha; subst. lia.
  - apply IH. now inversion Ha.
Qed.

Section Window.

Variable gaussian_filter : grid -> R -> grid.
Variable gauss_variates : nat -> R.

Lemma sweep_matrices_square (target : grid) (cd : R) (n : nat)
  (doses focuses : list R) (st st' : sweep_state) :
  (length (snd (fst st)) = n /\ rectangular n (snd (fst st))) ->
  (length (snd st) = n /\ rectangular n (snd st)) ->
  sweep gaussian_filter gauss_variates target cd doses focuses st
  = Returned st' ->
  (length (snd (fst st')) = n /\ rectangular n (snd (fst st'))) /\
  (length (snd st') = n /\ rectangular n (snd st')).
Proof.
  intros Hc Hl Hrun. unfold sweep in Hrun.
  set (P := fun s : sweep_state =>
              (length (snd (fst s)) = n /\ rectangular n (snd (fst s))) /\
              (length (snd s) = n /\ rectangular n (snd s))).
  refine (for_each_M_invariant P _ _ st st' _ _ Hrun); [| now split].
  intros [i dose] s1 s2 Hs1 Hinner.
  refine (for_each_M_invariant P _ _ s1 s2 _ Hs1 Hinner).
  intros [j focus] [[[m k] cds] ls] s4 [Hcs Hls] Hpoint.
  destruct (sweep_point_outcome gaussian_filter gauss_variates target cd i j
              dose focus m k cds ls s4 Hpoint) as (res & m2 & k' & _ & ->).
  split; simpl in *; now apply square_matrix_set.
Qed.

(** The three matrices of a returned sweep have [steps] rows of [steps]
    entries, and for at least one step the window area is a number between
    0 and 1: the number of in-window points over [steps * steps]. *)
Theorem process_window_area_is_a_fraction (m : EUVExposureModel)
  (target_cd_nm : R) (dose_range focus_range : option (R * R))
  (steps k : nat) (r : process_window_result) (st : EUVExposureModel * nat) :
  calculate_process_window gaussian_filter gauss_variates m target_cd_nm
    dose_range focus_range steps k = Returned (r, st) ->
  (length (cd_errors r) = steps /\ rectangular steps (cd_errors r)) /\
  (length (lers r) = steps /\ rectangular steps (lers r)) /\
  length (process_window r) = steps /\
  ((1 <= steps)%nat ->
   window_area r
   = Num (INR (count_true (process_window r)) / INR (steps * steps)) /\
   0 <= INR (count_true (process_window r)) / INR (steps * steps) <= 1).
Proof.
  unfold calculate_process_window. cbv zeta.
  destruct (sweep _ _ _ _ _ _ _) as [[[[m1 k1] cds] ls] | e] eqn:Hsweep;
    simpl py_bind; [| discriminate].
  intros H. injection H as <- _.
  cbn [cd_errors lers process_window window_area].
  pose proof (fun H1 H2 => sweep_matrices_square _ _ steps _ _ _ _ H1 H2 Hsweep)
    as Hsquare.
  cbn [fst snd] in Hsquare.
  destruct (Hsquare (square_repeat steps (Num 0)) (square_repeat steps 0))
    as [[Hcl Hcr] [Hll Hlr]].
  split; [now split |]. split; [now split |].
  set (pw := zip_with (zip_with andb) _ _).
  assert (Hlen : length pw = steps).
  { unfold pw. rewrite length_zip_with, !length_map. lia. }
  assert (Hcount : (count_true pw <= steps * steps)%nat).
  { apply count_true_bound; [lia |]. unfold pw. apply window_rows_bound.
    unfold rectangular in *. apply Forall_map.
    eapply Forall_impl; [| exact Hcr].
    intros row Hrow. now rewrite length_map. }
  split; [exact Hlen |]. intros Hsteps.
  assert (Hpos : 0 < INR (steps * steps)).
  { apply lt_0_INR. nia. }
  split.
  - unfold np_true_divide.
    destruct (Req_dec_T (INR (steps * steps)) 0); [lra | reflexivity].
  - apply le_INR in Hcount. pose proof (pos_INR (count_true pw)).
    split.
    + apply Rmult_le_pos; [assumption |].
      apply Rlt_le, Rinv_0_lt_compat, Hpos.
    + apply (Rmult_le_reg_r (INR (steps * steps))); [exact Hpos |].
      unfold Rdiv. rewrite Rmult_assoc, Rinv_l by lra. lra.
Qed.

End Window.

Lemma process_window_area_is_a_fraction_witness :
  exists r st,
    calculate_process_window zero_filter (fun _ => 1 / 8) (init None None) 16.0
      None None 3 0 = Returned (r, st) /\
    length (process_window r) = 3%nat.
Proof.
  destruct (calculate_process_window_returns zero_filter (fun _ => 1 / 8)
              (init None None) 16.0 None None 3 0 zero_filter_shape)
    as [[r st] Hrun].
  exists r, st. split; [exact Hrun |].
  now destruct (process_window_area_is_a_fraction zero_filter (fun _ => 1 / 8)
                  (init None None) 16.0 None None 3 0 r st Hrun)
    as (_ & _ & Hlen & _).
Defined.


(** ** The process window of the default development model *)

Lemma for_each_M_grows {A S K : Type} (I : S -> Prop) (N : S -> K -> Prop)
  (C : A -> K -> Prop) (body : A -> S -> py_result S) :
  (forall a s s', I s -> body a s = Returned s' ->
     I s' /\ (forall c, N s c -> N s' c) /\ (forall c, C a c -> N s' c)) ->
  forall l s s', I s -> for_each_M l body s = Returned s' ->
    I s' /\ (forall c, N s c -> N s' c) /\
    (forall a c, In a l -> C a c -> N s' c).
Proof.
  intros Hbody l. induction l as [| a l IH]; intros s s' Hs Hrun;
    simpl in Hrun.
  - injection Hrun as <-. repeat split; auto. intros a c [].
  - destruct (body a s) as [s1 | e] eqn:Hb; simpl in Hrun; [| discriminate].
    destruct (Hbody a s s1 Hs Hb) as (Hs1 & Hmono1 & Hcover1).
    destruct (IH s1 s' Hs1 Hrun) as (Hs' & Hmono & Hcover).
    split; [exact Hs' |]. split; [auto |].
    intros b c [-> | Hb'] Hc; [apply Hmono, Hcover1, Hc | eauto].
Qed.

Lemma nth_update_nth_cases {A : Type} (n i : nat) (f : A -> A) (l : list A)
  (d : A) :
  nth i (update_nth n f l) d = nth i l d \/
  (i = n /\ nth i (update_nth n f l) d = f (nth i l d)).
Proof.
  revert n i. induction l as [| a l IH]; intros [| n] [| i]; simpl; auto.
  destruct (IH n i) as [H | [-> H]]; auto.
Qed.

(** Writing [v] somewhere keeps the entries that already hold [v]. *)
Lemma matrix_set_keeps {A : Type} (g : list (list A)) (i j a b : nat)
  (v d : A) :
  nth b (nth a g []) d = v -> nth b (nth a (matrix_set g i j v) []) d = v.
Proof.
  intros Hv. unfold matrix_set.
  destruct (nth_update_nth_cases i a (update_nth j (fun _ => v)) g [])
    as [-> | [_ ->]]; [exact Hv |].
  destruct (nth_update_nth_cases j b (fun _ : A => v) (nth a g []) d)
    as [-> | [_ ->]]; [exact Hv | reflexivity].
Qed.

Lemma In_enumerate {A : Type} (l : list A) (i : nat) (d : A) :
  (i < length l)%nat -> In (i, nth i l d) (enumerate l).
Proof.
  intros Hi. unfold enumerate.
  replace (i, nth i l d)
    with (nth i (combine (seq 0 (length l)) l) (0%nat, d)).
  - apply nth_In. rewrite length_combine, length_seq. lia.
  - rewrite combine_nth by now rewrite length_seq.
    now rewrite seq_nth.
Qed.

Lemma matrix_all {A : Type} (n : nat) (g : list (list A)) (v d : A) :
  length g = n -> rectangular n g ->
  (forall a b, (a < n)%nat -> (b < n)%nat -> nth b (nth a g []) d = v) ->
  Forall (Forall (fun e => e = v)) g.
Proof.
  intros Hl Hr Hall. unfold rectangular in Hr. rewrite Forall_forall in Hr.
  apply Forall_forall. intros row Hrow.
  pose proof (Hr row Hrow) as Hlen.
  destruct (In_nth g row [] Hrow) as (a & Ha & <-).
  apply Forall_forall. intros e He.
  destruct (In_nth _ e d He) as (b & Hb & <-).
  apply Hall; lia.
Qed.

Lemma window_of_false_rows (a : list (list bool)) (b : list (list bool)) :
  Forall (Forall (fun e => e = false)) a ->
  Forall (Forall (fun e => e = false)) (zip_with (zip_with andb) a b).
Proof.
  revert b. induction a as [| ra a IH]; intros [| rb b] Ha; simpl;
    try constructor.
  - inversion Ha as [| ? ? Hra _]; subst. clear IH Ha.
    revert rb. induction ra as [| x ra IHr]; intros [| y rb]; simpl;
      try constructor.
    + inversion Hra; subst. reflexivity.
    + apply IHr. now inversion Hra.
  - apply IH. now inversion Ha.
Qed.

Lemma count_true_of_false (g : list (list bool)) :
  Forall (Forall (fun e => e = false)) g -> count_true g = 0%nat.
Proof.
  unfold count_true. induction 1 as [| row g Hrow _ IH]; simpl; [reflexivity |].
  rewrite IH, Nat.add_0_r.
  induction Hrow as [| x row Hx _ IHr]; simpl; [reflexivity |].
  now rewrite Hx.
Qed.

Lemma uniform_pattern_cd_error (v : R) (pattern : grid) (cd : R)
  (sm : stochastic_metrics) :
  all_cells (fun c => c = v) pattern ->
  calculate_stochastic_metrics pattern cd = Returned sm ->
  sm_cd_error_nm sm = NaN /\ sm_ler_nm sm = 0.
Proof.
  intros Hall. unfold calculate_stochastic_metrics.
  rewrite (uniform_pattern_has_no_edge v) by exact Hall.
  destruct (Req_dec_T _ 0); [discriminate |].
  intros H. injection H as <-. simpl. rewrite np_mean_empty. simpl.
  split; [reflexivity | lra].
Qed.

Section DefaultWindow.

Variable gaussian_filter : grid -> R -> grid.
Variable gauss_variates : nat -> R.

Lemma default_run_cd_error (m : EUVExposureModel) (target : grid) (cd : R)
  (k : nat) (res : simulation_results) (m' : EUVExposureModel) (k' : nat) :
  development_rate_base_nm_s (resist m) = 0.5 ->
  development_contrast (resist m) = 4.5 ->
  run_full_simulation gaussian_filter gauss_variates m target cd 30.0 k
  = Returned (res, (m', k')) ->
  cd_error_nm (result_metrics res) = NaN /\ ler_nm (result_metrics res) = 0 /\
  resist m' = resist m.
Proof.
  intros Hbase Hcontrast Hrun.
  destruct (run_full_simulation_outcome gaussian_filter gauss_variates m target
              cd 30.0 k res m' k' Hrun)
    as (sm & Hsm & -> & Hres & _ & Hfinal & _).
  assert (Hones : all_cells (fun c => c = 1) (final_pattern res)).
  { rewrite Hfinal. apply slow_development_keeps_resist.
    now apply development_rate_below_base. }
  destruct (uniform_pattern_cd_error 1 _ cd sm Hones Hsm) as [Hcd Hler].
  rewrite Hres. simpl. now rewrite Hcd, Hler.
Qed.

Lemma default_sweep_fills_nan (target : grid) (cd : R) (n : nat)
  (doses focuses : list R) (st st' : sweep_state) :
  development_rate_base_nm_s (resist (fst (fst (fst st)))) = 0.5 ->
  development_contrast (resist (fst (fst (fst st)))) = 4.5 ->
  length (snd (fst st)) = n -> rectangular n (snd (fst st)) ->
  length doses = n -> length focuses = n ->
  sweep gaussian_filter gauss_variates target cd doses focuses st
  = Returned st' ->
  forall a b, (a < n)%nat -> (b < n)%nat ->
    nth b (nth a (snd (fst st')) []) (Num 0) = NaN.
Proof.
  intros Hbase Hcontrast Hlen Hrect Hdoses Hfocuses Hrun a b Ha Hb.
  set (I := fun s : sweep_state =>
              development_rate_base_nm_s (resist (fst (fst (fst s)))) = 0.5 /\
              development_contrast (resist (fst (fst (fst s)))) = 4.5 /\
              length (snd (fst s)) = n /\ rectangular n (snd (fst s))).
  set (N := fun (s : sweep_state) (c : nat * nat) =>
              nth (snd c) (nth (fst c) (snd (fst s)) []) (Num 0) = NaN).
  assert (Hpoint : forall i dose j focus s s',
             I s ->
             sweep_point gaussian_filter gauss_variates target cd i dose j
               focus s = Returned s' ->
             I s' /\ (forall c, N s c -> N s' c) /\
             (forall c, (i < n)%nat /\ (j < n)%nat /\ c = (i, j) -> N s' c)).
  { intros i dose j focus [[[m k] cds] ls] s' (Hb1 & Hc1 & Hl1 & Hr1) Hp.
    simpl in Hb1, Hc1, Hl1, Hr1.
    destruct (sweep_point_outcome gaussian_filter gauss_variates target cd i j
                dose focus m k cds ls s' Hp) as (res & m2 & k' & Hrun' & ->).
    destruct (default_run_cd_error (set_dose m dose) target cd k res m2 k'
                Hb1 Hc1 Hrun') as (Hcd & _ & Hres).
    rewrite Hcd. unfold I, N. simpl. rewrite Hres. simpl.
    split; [| split].
    - repeat split; try assumption;
        now apply (square_matrix_set n cds i j NaN (conj Hl1 Hr1)).
    - intros [a' b']. simpl. apply matrix_set_keeps.
    - intros c (Hi & Hj & ->). simpl.
      rewrite nth_matrix_set.
      + now rewrite !Nat.eqb_refl.
      + lia.
      + unfold rectangular in Hr1. rewrite Forall_forall in Hr1.
        rewrite (Hr1 (nth i cds [])); [exact Hj |]. apply nth_In. lia. }
  unfold sweep in Hrun.
  destruct (for_each_M_grows I N
              (fun (p : nat * R) (c : nat * nat) =>
                 (fst p < n)%nat /\ fst c = fst p /\ (snd c < n)%nat)
              (fun '(i, dose) =>
                 for_each_M (enumerate focuses)
                   (fun '(j, focus) =>
                      sweep_point gaussian_filter gauss_variates target cd i
                        dose j focus)))
    with (l := enumerate doses) (s := st) (s' := st')
    as (_ & _ & Hcover).
  - intros [i dose] s s' Hs Hinner.
    destruct (for_each_M_grows I N
                (fun (p : nat * R) (c : nat * nat) =>
                   (i < n)%nat /\ (fst p < n)%nat /\ c = (i, fst p))
                (fun '(j, focus) =>
                   sweep_point gaussian_filter gauss_variates target cd i dose
                     j focus))
      with (l := enumerate focuses) (s := s) (s' := s')
      as (Hs' & Hmono & Hcover); try assumption.
    + intros [j focus] s1 s2 Hs1 Hp. simpl.
      now apply (Hpoint i dose j focus).
    + split; [exact Hs' |]. split; [exact Hmono |].
      intros [a' b'] (Hi & Ha' & Hb'). simpl in *. subst a'.
      apply (Hcover (b', nth b' focuses 0)).
      * apply In_enumerate. lia.
      * simpl. auto.
  - unfold I. auto.
  - exact Hrun.
  - apply (Hcover (a, nth a doses 0) (a, b)).
    + apply In_enumerate. lia.
    + simpl. auto.
Qed.

(** With development base rate 0.5 nm/s and contrast 4.5 the process window
    of a returned sweep is empty whatever the target CD, the ranges, the
    blur and the random draws: every CD error is [nan], no sweep point is in
    the window, and for at least one step the window area is 0. *)
Theorem default_process_window_is_empty (m : EUVExposureModel)
  (target_cd_nm : R) (dose_range focus_range : option (R * R))
  (steps k : nat) (r : process_window_result) (st : EUVExposureModel * nat) :
  development_rate_base_nm_s (resist m) = 0.5 ->
  development_contrast (resist m) = 4.5 ->
  calculate_process_window gaussian_filter gauss_variates m target_cd_nm
    dose_range focus_range steps k = Returned (r, st) ->
  Forall (Forall (fun e => e = NaN)) (cd_errors r) /\
  Forall (Forall (fun e => e = false)) (process_window r) /\
  ((1 <= steps)%nat -> window_area r = Num 0).
Proof.
  intros Hbase Hcontrast. unfold calculate_process_window. cbv zeta.
  destruct (sweep _ _ _ _ _ _ _) as [[[[m1 k1] cds] ls] | e] eqn:Hsweep;
    simpl py_bind; [| discriminate].
  intros H. injection H as <- _.
  cbn [cd_errors process_window window_area].
  pose proof (fun H1 H2 =>
                sweep_matrices_square gaussian_filter gauss_variates _ _ steps
                  _ _ _ _ H1 H2 Hsweep) as Hsquare.
  cbn [fst snd] in Hsquare.
  destruct (Hsquare (square_repeat steps (Num 0)) (square_repeat steps 0))
    as [[Hcl Hcr] _].
  pose proof (fun H1 H2 H3 H4 H5 H6 =>
                default_sweep_fills_nan _ _ steps _ _ _ _ H1 H2 H3 H4 H5 H6
                  Hsweep) as Hfill.
  cbn [fst snd] in Hfill.
  assert (Hnan : Forall (Forall (fun e => e = NaN)) cds).
  { apply (matrix_all steps cds NaN (Num 0) Hcl Hcr).
    apply Hfill; try assumption; try apply square_repeat;
      apply length_np_linspace. }
  assert (Hfalse :
            Forall (Forall (fun e => e = false))
              (zip_with (zip_with andb)
                 (map (map (fun e => np_ltb (np_abs e) (target_cd_nm * 0.1))) cds)
                 (map (map (fun l => Rltb l 1.5)) ls))).
  { apply window_of_false_rows. apply Forall_map.
    eapply Forall_impl; [| exact Hnan].
    intros row Hrow. apply Forall_map.
    eapply Forall_impl; [| exact Hrow]. now intros e ->. }
  split; [exact Hnan |]. split; [exact Hfalse |].
  intros Hsteps. rewrite (count_true_of_false _ Hfalse).
  unfold np_true_divide. change (INR 0) with 0.
  assert (Hpos : 0 < INR (steps * steps)) by (apply lt_0_INR; nia).
  destruct (Req_dec_T (INR (steps * steps)) 0); [lra |].
  f_equal. unfold Rdiv. apply Rmult_0_l.
Qed.

End DefaultWindow.

Lemma default_process_window_is_empty_witness :
  development_rate_base_nm_s (resist (init None None)) = 0.5 /\
  development_contrast (resist (init None None)) = 4.5 /\
  exists r st,
    calculate_process_window zero_filter (fun _ => 1 / 8) (init None None) 16.0
      None None 3 0 = Returned (r, st) /\
    window_area r = Num 0.
Proof.
  split; [reflexivity |]. split; [reflexivity |].
  destruct (calculate_process_window_returns zero_filter (fun _ => 1 / 8)
              (init None None) 16.0 None None 3 0 zero_filter_shape)
    as [[r st] Hrun].
  exists r, st. split; [exact Hrun |].
  destruct (default_process_window_is_empty zero_filter (fun _ => 1 / 8)
              (init None None) 16.0 None None 3 0 r st eq_refl eq_refl Hrun)
    as (_ & _ & Harea).
  apply Harea. lia.
Defined.


Lemma chemical_reactions_meox_witness :
  resist_type (resist (init None (Some meox_resist))) = "MeOx"%string /\
  exists acid,
    simulate_chemical_reactions (init None (Some meox_resist)) [[2; 0]]
    = Returned acid /\
    well_shaped 2 1 acid.
Proof.
  split; [reflexivity |].
  destruct (chemical_reactions_meox (init None (Some meox_resist)) [[2; 0]]
              eq_refl) as (acid & Hret & Hshape & _).
  exists acid. split; [exact Hret | exact Hshape].
Defined.

(** ** The development rate as a function of the acid concentration *)

Lemma rate_of_acid_bounds (base contrast c : R) :
  0 < base -> 0 < rate_of_acid base contrast c < base.
Proof.
  intros Hbase. unfold rate_of_acid.
  pose proof (exp_pos (- contrast * (c - 0.5))) as He.
  set (e := exp _) in *.
  assert (Hinv : 0 < / (1 + e) < 1).
  { split; [apply Rinv_0_lt_compat; lra |].
    rewrite <- Rinv_1 at 2. apply Rinv_lt_contravar; lra. }
  unfold Rdiv. split; nra.
Qed.

Lemma rate_of_acid_increasing (base contrast c1 c2 : R) :
  0 < base -> 0 < contrast -> c1 < c2 ->
  rate_of_acid base contrast c1 < rate_of_acid base contrast c2.
Proof.
  intros Hbase Hcontrast Hc. unfold rate_of_acid.
  assert (He : exp (- contrast * (c2 - 0.5)) < exp (- contrast * (c1 - 0.5)))
    by (apply exp_increasing; nra).
  pose proof (exp_pos (- contrast * (c2 - 0.5))) as He2.
  set (e1 := exp (- contrast * (c1 - 0.5))) in *.
  set (e2 := exp (- contrast * (c2 - 0.5))) in *.
  unfold Rdiv. apply Rmult_lt_compat_l; [exact Hbase |].
  apply Rinv_lt_contravar; [nra | lra].
Qed.

Lemma rate_of_acid_midpoint (base contrast : R) :
  rate_of_acid base contrast 0.5 = base / 2.
Proof.
  unfold rate_of_acid.
  replace (- contrast * (0.5 - 0.5)) with 0 by lra.
  rewrite exp_0. lra.
Qed.

Lemma rate_of_acid_monotone (base contrast c1 c2 : R) :
  0 < base -> 0 < contrast -> c1 <= c2 ->
  rate_of_acid base contrast c1 <= rate_of_acid base contrast c2.
Proof.
  intros Hbase Hcontrast [Hlt | ->]; [| lra].
  left. now apply rate_of_acid_increasing.
Qed.

(** For a positive base rate and a positive contrast the development rate is
    a sigmoid of the acid concentration: every cell lies between 0 and the
    base rate (bounds included: in binary64 both are reached, see
    [Float64]), a cell of concentration 0.5 develops at half the base rate,
    and of two cells the one with at least as much acid develops at least
    as fast. *)
Theorem development_rate_is_a_sigmoid (m : EUVExposureModel) (acid : grid) :
  0 < development_rate_base_nm_s (resist m) ->
  0 < development_contrast (resist m) ->
  let rate := calculate_development_rate m acid in
  all_cells (fun r => 0 <= r <= development_rate_base_nm_s (resist m)) rate /\
  forall y x, (y < height acid)%nat -> (x < length (nth y acid []))%nat ->
    (grid_get acid y x = 0.5 ->
     grid_get rate y x = development_rate_base_nm_s (resist m) / 2) /\
    forall y' x', (y' < height acid)%nat -> (x' < length (nth y' acid []))%nat ->
      grid_get acid y x <= grid_get acid y' x' ->
      grid_get rate y x <= grid_get rate y' x'.
Proof.
  intros Hbase Hcontrast rate. unfold rate.
  rewrite calculate_development_rate_pointwise. split.
  - apply all_cells_grid_map with (P := fun _ => True);
      [| now apply all_cells_trivial].
    intros c _.
    pose proof (rate_of_acid_bounds (development_rate_base_nm_s (resist m))
                  (development_contrast (resist m)) c Hbase).
    lra.
  - intros y x Hy Hx. rewrite grid_get_grid_map by assumption. split.
    + intros ->. apply rate_of_acid_midpoint.
    + intros y' x' Hy' Hx' Hle. rewrite grid_get_grid_map by assumption.
      now apply rate_of_acid_monotone.
Qed.

Lemma development_rate_is_a_sigmoid_witness :
  0 < development_rate_base_nm_s (resist (init None None)) /\
  0 < development_contrast (resist (init None None)) /\
  all_cells (fun r => 0 <= r <= development_rate_base_nm_s (resist (init None None)))
            (calculate_development_rate (init None None) [[0; 0.5; 361.25]]).
Proof.
  assert (Hbase : 0 < development_rate_base_nm_s (resist (init None None)))
    by (simpl; lra).
  assert (Hcontrast : 0 < development_contrast (resist (init None None)))
    by (simpl; lra).
  split; [exact Hbase |]. split; [exact Hcontrast |].
  apply (development_rate_is_a_sigmoid (init None None) [[0; 0.5; 361.25]]
           Hbase Hcontrast).
Defined.

(** ** The process-window test of the repository *)

Lemma np_diff_increasing (f : nat -> R) (b : R) (n s : nat) :
  (forall i, f i < f (S i)) -> f (s + n)%nat < b ->
  Forall (fun d => 0 < d) (np_diff Rminus (map f (seq s (S n)) ++ [b])).
Proof.
  intros Hf. revert s. induction n as [| n IH]; intros s Hlast.
  - simpl. rewrite Nat.add_0_r in Hlast. repeat constructor. lra.
  - change (map f (seq s (S (S n))) ++ [b])
      with (f s :: (map f (seq (S s) (S n)) ++ [b])).
    change (map f (seq (S s) (S n)) ++ [b])
      with (f (S s) :: (map f (seq (S (S s)) n) ++ [b])) at 1.
    cbn [np_diff]. constructor.
    + specialize (Hf s). lra.
    + apply (IH (S s)). now replace (S s + n)%nat with (s + S n)%nat by lia.
Qed.

Lemma length_np_diff {A : Type} (sub : A -> A -> A) (l : list A) :
  length (np_diff sub l) = (length l - 1)%nat.
Proof.
  induction l as [| a [| b l] IH]; try reflexivity.
  cbn [np_diff length] in *. rewrite IH. lia.
Qed.

(** On an axis of at least two increasing values the latitude of the test
    is the width of the range. *)
Lemma latitude_of_linspace (a b : R) (n : nat) :
  a < b -> latitude (np_linspace a b (S (S n))) = Num (b - a).
Proof.
  intros Hab. unfold latitude.
  assert (Hstep : 0 < (b - a) / INR (S n)).
  { apply Rdiv_lt_0_compat; [lra | apply lt_0_INR; lia]. }
  assert (Hdiff : Forall (fun d => 0 < d)
                    (np_diff Rminus (np_linspace a b (S (S n))))).
  { unfold np_linspace.
    assert (Hn : INR n * ((b - a) / INR (S n)) < b - a).
    { rewrite S_INR in *. unfold Rdiv in *.
      pose proof (pos_INR n) as Hpos.
      assert (Hinv : 0 < / (INR n + 1)) by (apply Rinv_0_lt_compat; lra).
      assert (Heq : (INR n + 1) * / (INR n + 1) = 1)
        by (apply Rinv_r; lra).
      nra. }
    set (step := (b - a) / INR (S n)) in *.
    apply (np_diff_increasing (fun i => a + INR i * step)).
    - intros i. rewrite S_INR. nra.
    - simpl Nat.add. lra. }
  assert (Hmean : np_mean (map (fun d => if Rlt_dec 0 d then 1 else 0)
                             (np_diff Rminus (np_linspace a b (S (S n)))))
                  = Num 1).
  { unfold np_mean. rewrite (Rsum_map_constant _ 1).
    - rewrite length_map.
      assert (Hlen : length (np_diff Rminus (np_linspace a b (S (S n))))
                     = S n)
        by (rewrite length_np_diff, length_np_linspace; lia).
      rewrite Hlen. unfold np_true_divide.
      assert (Hpos : 0 < INR (S n)) by (apply lt_0_INR; lia).
      destruct (Req_dec_T (INR (S n)) 0); [lra |].
      f_equal. field. lra.
    - eapply Forall_impl; [| exact Hdiff].
      intros d Hd. cbv beta in Hd. destruct (Rlt_dec 0 d); [reflexivity | lra]. }
  rewrite Hmean.
  destruct (np_linspace_last a b n) as [l Hl].
  rewrite Hl at 1. rewrite last_last.
  rewrite (np_linspace_first a b (S n)).
  simpl. f_equal. lra.
Qed.

Lemma process_window_axis_values (gaussian_filter : grid -> R -> grid)
  (gauss_variates : nat -> R) (m : EUVExposureModel) (target_cd_nm : R)
  (dose_range focus_range : option (R * R)) (steps k : nat)
  (r : process_window_result) (st : EUVExposureModel * nat) :
  calculate_process_window gaussian_filter gauss_variates m target_cd_nm
    dose_range focus_range steps k = Returned (r, st) ->
  dose_values r
  = np_linspace
      (fst match dose_range with
           | Some d => d
           | None => (dose_mJ_cm2 (tool m) * 0.8, dose_mJ_cm2 (tool m) * 1.2)
           end)
      (snd match dose_range with
           | Some d => d
           | None => (dose_mJ_cm2 (tool m) * 0.8, dose_mJ_cm2 (tool m) * 1.2)
           end) steps /\
  focus_values r
  = np_linspace
      (fst match focus_range with Some f => f | None => (-40.0, 40.0) end)
      (snd match focus_range with Some f => f | None => (-40.0, 40.0) end)
      steps.
Proof.
  unfold calculate_process_window. cbv zeta.
  destruct (sweep _ _ _ _ _ _ _) as [[[[m1 k1] cds] ls] | e];
    simpl py_bind; [| discriminate].
  intros H. injection H as <- _. split; reflexivity.
Qed.

(** [test_process_window] cannot pass: whatever the blur and the random
    draws, when the sweep returns the dose latitude the test computes is 12
    (the width 36 - 24 of the dose axis in mJ/cm2, not a percentage) and the
    focus latitude is 80, both outside the asserted intervals (18, 22) and
    (36, 44); with a blur that keeps the shape the sweep does return. *)
Theorem test_process_window_fails (gaussian_filter : grid -> R -> grid)
  (gauss_variates : nat -> R) (k : nat) :
  (forall pw,
     calculate_process_window gaussian_filter gauss_variates
       (set_dose (init None None) 30.0) 16.0 None None 15 k = Returned pw ->
     latitude (dose_values (fst pw)) = Num 12 /\
     latitude (focus_values (fst pw)) = Num 80) /\
  test_process_window gaussian_filter gauss_variates k <> Returned true /\
  (shape_preserving gaussian_filter ->
   test_process_window gaussian_filter gauss_variates k = Returned false).
Proof.
  assert (Hlat : forall pw,
             calculate_process_window gaussian_filter gauss_variates
               (set_dose (init None None) 30.0) 16.0 None None 15 k
             = Returned pw ->
             latitude (dose_values (fst pw)) = Num 12 /\
             latitude (focus_values (fst pw)) = Num 80).
  { intros [r st] Hpw. cbn [fst].
    destruct (process_window_axis_values gaussian_filter gauss_variates
                (set_dose (init None None) 30.0) 16.0 None None 15 k r st Hpw)
      as [-> ->].
    rewrite !latitude_of_linspace by (cbn [fst snd dose_mJ_cm2 tool set_dose]; lra).
    split; f_equal; cbn [fst snd dose_mJ_cm2 tool set_dose]; lra. }
  assert (Hfalse : forall pw,
             calculate_process_window gaussian_filter gauss_variates
               (set_dose (init None None) 30.0) 16.0 None None 15 k
             = Returned pw ->
             test_process_window gaussian_filter gauss_variates k
             = Returned false).
  { intros pw Hpw. unfold test_process_window. cbv zeta. rewrite Hpw.
    simpl py_bind. destruct (Hlat pw Hpw) as [-> ->].
    unfold np_between, Rltb.
    destruct (Rlt_dec 18.0 12); [lra | reflexivity]. }
  split; [exact Hlat |]. split.
  - destruct (calculate_process_window gaussian_filter gauss_variates
                (set_dose (init None None) 30.0) 16.0 None None 15 k)
      as [pw | e] eqn:Hpw.
    + rewrite (Hfalse pw eq_refl). discriminate.
    + unfold test_process_window. cbv zeta. rewrite Hpw. discriminate.
  - intros Hgf.
    destruct (calculate_process_window_returns gaussian_filter gauss_variates
                (set_dose (init None None) 30.0) 16.0 None None 15 k Hgf)
      as [pw Hpw].
    now apply (Hfalse pw).
Qed.

Lemma test_process_window_fails_witness :
  shape_preserving zero_filter /\
  test_process_window zero_filter (fun _ => 1 / 8) 0 = Returned false.
Proof.
  split; [exact zero_filter_shape |].
  apply (test_process_window_fails zero_filter (fun _ => 1 / 8) 0).
  exact zero_filter_shape.
Defined.


(** ** The default development removes nothing *)

(** C1 (as stated) fails on the strict bounds.  In binary64, at the acid
    concentration 361.25 that one electron generates in the default resist,
    the exponent is -1623.375, the exponential underflows to 0.0 and the rate
    is 0.5 / (1.0 + 0.0): exactly the base rate 0.5, not strictly below it;
    the removed depth at 30 s is exactly 15.0, not strictly below 15.  The
    cell still remains (pattern value 1.0). *)
Lemma default_rate_reaches_base_counterexample :
  Float64.development_rate Float64.base_rate Float64.contrast
    Float64.one_electron_acid = Some Float64.base_rate /\
  PrimFloat.ltb Float64.base_rate Float64.base_rate = false /\
  Float64.development_depth Float64.base_rate Float64.development_time
  = Float64.fifteen /\
  PrimFloat.ltb
    (Float64.development_depth Float64.base_rate Float64.development_time)
    Float64.fifteen = false /\
  Float64.pattern
    (Float64.development_depth Float64.base_rate Float64.development_time)
  = Float64.one.
Proof. repeat split; vm_compute; reflexivity. Qed.

Lemma final_pattern_cells (gaussian_filter : grid -> R -> grid)
  (gauss_variates : nat -> R) (m : EUVExposureModel) (target : grid)
  (cd : R) (k : nat) (res : simulation_results)
  (st : EUVExposureModel * nat) :
  development_rate_base_nm_s (resist m) = 0.5 ->
  development_contrast (resist m) = 4.5 ->
  shape_preserving gaussian_filter ->
  run_full_simulation gaussian_filter gauss_variates m target cd 30.0 k
  = Returned (res, st) ->
  height (final_pattern res) = height target /\
  width (final_pattern res) = width target /\
  rectangular (width target) (final_pattern res) /\
  forall y x, (y < height target)%nat -> (x < width target)%nat ->
    grid_get (final_pattern res) y x = 1.
Proof.
  intros Hbase Hcontrast Hgf Hrun.
  pose proof (run_full_simulation_final_shape gaussian_filter gauss_variates m
                target cd 30.0 k res st Hgf Hrun) as Hshape.
  destruct (well_shaped_dimensions _ _ _ target eq_refl eq_refl Hshape)
    as [Hh Hw].
  apply run_full_simulation_stages in Hrun. destruct Hrun as [Hrate Hfinal].
  assert (Hones : all_cells (fun v => v = 1) (final_pattern res)).
  { rewrite Hfinal, Hrate. apply slow_development_keeps_resist.
    now apply development_rate_below_base. }
  split; [exact Hh |]. split; [exact Hw |]. split; [apply Hshape |].
  intros y x Hy Hx. apply grid_get_uniform.
  - rewrite Hw. apply Hshape.
  - exact Hones.
  - now rewrite Hh.
  - now rewrite Hw.
Qed.

(** C1 (as the code behaves).  With development base rate 0.5 nm/s, contrast
    4.5 and the default development time of 30 s, whatever the target
    pattern, the tool parameters, the random draws and the blur: in a
    returned simulation the rate of every cell is at most the base rate
    0.5 nm/s, its removed depth is at most 15 nm and stays below the 40 nm
    of resist, and every cell of the final pattern is exactly 1.  When the
    blur keeps the shape of its input the final pattern has the height and
    width of the target and holds 1 at every cell position of the target;
    if moreover the target has at least one cell the simulation returns. *)
Theorem default_development_keeps_every_cell
  (gaussian_filter : grid -> R -> grid) (gauss_variates : nat -> R)
  (m : EUVExposureModel) (target : grid) (cd : R) (k : nat) :
  development_rate_base_nm_s (resist m) = 0.5 ->
  development_contrast (resist m) = 4.5 ->
  (forall res st,
     run_full_simulation gaussian_filter gauss_variates m target cd 30.0 k
     = Returned (res, st) ->
     all_cells (fun r => r <= 0.5) (rate_map res) /\
     all_cells (fun r => r * 30.0 <= 15 /\ 40 - r * 30.0 > 0) (rate_map res) /\
     final_pattern res = simulate_development (rate_map res) 30.0 /\
     all_cells (fun v => v = 1) (final_pattern res) /\
     (shape_preserving gaussian_filter ->
      height (final_pattern res) = height target /\
      width (final_pattern res) = width target /\
      rectangular (width target) (final_pattern res) /\
      forall y x, (y < height target)%nat -> (x < width target)%nat ->
        grid_get (final_pattern res) y x = 1)) /\
  (shape_preserving gaussian_filter -> grid_size target <> 0%nat ->
   exists res st,
     run_full_simulation gaussian_filter gauss_variates m target cd 30.0 k
     = Returned (res, st)).
Proof.
  intros Hbase Hcontrast. split.
  - intros res st Hrun.
    pose proof (run_full_simulation_stages gaussian_filter gauss_variates m
                  target cd 30.0 k res st Hrun) as [Hrate Hfinal].
    pose proof (development_rate_below_base m (diffused_acid res)
                  Hbase Hcontrast) as Hbelow.
    rewrite <- Hrate in Hbelow.
    split; [| split; [| split; [| split]]].
    + eapply Forall_impl; [| exact Hbelow].
      intros row Hrow. eapply Forall_impl; [| exact Hrow].
      intros r Hr. cbv beta in Hr. lra.
    + eapply Forall_impl; [| exact Hbelow].
      intros row Hrow. eapply Forall_impl; [| exact Hrow].
      intros r Hr. cbv beta in Hr. lra.
    + exact Hfinal.
    + rewrite Hfinal. now apply slow_development_keeps_resist.
    + intros Hgf.
      now apply (final_pattern_cells gaussian_filter gauss_variates m target cd
                   k res st).
  - intros Hgf Hsize. now apply run_full_simulation_returns.
Qed.

Lemma default_development_keeps_every_cell_witness :
  development_rate_base_nm_s (resist (init None None)) = 0.5 /\
  development_contrast (resist (init None None)) = 4.5 /\
  exists res st,
    run_full_simulation zero_filter (fun _ => 1 / 8) (init None None)
      center_cell 16.0 30.0 0 = Returned (res, st) /\
    height (final_pattern res) = 3%nat /\ width (final_pattern res) = 3%nat /\
    grid_get (final_pattern res) 1 1 = 1.
Proof.
  split; [reflexivity |]. split; [reflexivity |].
  destruct (default_development_keeps_every_cell zero_filter (fun _ => 1 / 8)
              (init None None) center_cell 16.0 0 eq_refl eq_refl)
    as [Hall Hret].
  destruct (Hret zero_filter_shape) as (res & st & Hrun).
  - unfold grid_size, height, width, center_cell. simpl. lia.
  - exists res, st. split; [exact Hrun |].
    destruct (Hall res st Hrun) as (_ & _ & _ & _ & Hshape).
    destruct (Hshape zero_filter_shape) as (Hh & Hw & _ & Hcells).
    split; [exact Hh |]. split; [exact Hw |].
    apply Hcells; unfold height, width, center_cell; simpl; lia.
Defined.
